(** * A shallow embedding of the chess engine (logic.js and the module copy)

    The engine is object-oriented JavaScript: pieces, move arrays and the
    rows of the grid are heap objects reached through references, and several
    of them are reachable along more than one path (the king and rook handles
    of a board, the selected piece, the en-passant target).  The embedding
    keeps that store explicit.  Three kinds of objects live in it:

    - pieces (instances of Pawn, Rook, Knight, Bishop, Queen, King),
    - arrays of squares (the [availableMoves] arrays),
    - rows of the grid (arrays of eight optional piece references).

    A [Board] object is a record of references; each method that assigns one
    of its fields returns the updated record.  Squares ([{row, column}]
    objects) are values: no code path assigns to the fields of an existing
    square object.  A computation returns [None] where the JavaScript raises
    a TypeError (property access on null or undefined) and where it would
    write outside a row; the embedding does not follow the game past that
    point. *)

From stdpp Require Import base option list fin_maps pmap.
From Stdlib Require Import ZArith Lia Bool.

Local Open Scope Z_scope.

(** ** Data *)

Inductive Color := White | Black.
Inductive Kind := Pawn | Rook | Knight | Bishop | Queen | King.

#[global] Instance Color_eq_dec : EqDecision Color.
Proof. solve_decision. Defined.
#[global] Instance Kind_eq_dec : EqDecision Kind.
Proof. solve_decision. Defined.

Record Square := mkSquare { row : Z; column : Z }.

#[global] Instance Square_eq_dec : EqDecision Square.
Proof. solve_decision. Defined.

(** [JSON.stringify(a) === JSON.stringify(b)] on two [{row, column}] objects. *)
Definition sameSquare (a b : Square) : bool :=
  (row a =? row b) && (column a =? column b).

Abbreviation pref := positive (only parsing).
Abbreviation aref := positive (only parsing).
Abbreviation rref := positive (only parsing).

(** One record for the six classes.  [amtMove] exists on Rook and King,
    [check] on King, [previousCoordinate] on Pawn; [enPassantMoves] is a Pawn
    field that [checkEnPassant] may also set on any selected piece.  A field a
    class lacks is never read on it (null and undefined are both [None]).
    [img] and [enPassantCapturable] play no part in the rules and are left
    out. *)
Record Piece := mkPiece {
  kind : Kind;
  color : Color;
  position : Square;
  amtMove : Z;
  check : bool;
  availableMoves : aref;
  previousCoordinate : option Square;
  enPassantMoves : option Square
}.

Definition set_position (sq : Square) (p : Piece) : Piece :=
  mkPiece (kind p) (color p) sq (amtMove p) (check p) (availableMoves p)
          (previousCoordinate p) (enPassantMoves p).
Definition set_amtMove (n : Z) (p : Piece) : Piece :=
  mkPiece (kind p) (color p) (position p) n (check p) (availableMoves p)
          (previousCoordinate p) (enPassantMoves p).
Definition set_check (c : bool) (p : Piece) : Piece :=
  mkPiece (kind p) (color p) (position p) (amtMove p) c (availableMoves p)
          (previousCoordinate p) (enPassantMoves p).
Definition set_availableMoves (a : aref) (p : Piece) : Piece :=
  mkPiece (kind p) (color p) (position p) (amtMove p) (check p) a
          (previousCoordinate p) (enPassantMoves p).
Definition set_previousCoordinate (o : option Square) (p : Piece) : Piece :=
  mkPiece (kind p) (color p) (position p) (amtMove p) (check p)
          (availableMoves p) o (enPassantMoves p).
Definition set_enPassantMoves (o : option Square) (p : Piece) : Piece :=
  mkPiece (kind p) (color p) (position p) (amtMove p) (check p)
          (availableMoves p) (previousCoordinate p) o.

(** [hasMoved()] of Rook and King. *)
Definition hasMoved (p : Piece) : bool := 0 <? amtMove p.

(** ** The store *)

Record Store := mkStore {
  pieces : Pmap Piece;
  arrays : Pmap (list Square);
  rows : Pmap (list (option pref));
  next : positive
}.

Definition emptyStore : Store := mkStore ∅ ∅ ∅ 1%positive.

(** Computations over a state that may raise. *)
Definition ST (S A : Type) : Type := S → option (A * S).

Definition ret {S A} (a : A) : ST S A := λ s, Some (a, s).
Definition bind {S A B} (m : ST S A) (k : A → ST S B) : ST S B :=
  λ s, match m s with
       | Some (a, s') => k a s'
       | None => None
       end.
Definition raise {S A} : ST S A := λ _, None.
(** A read-only computation run inside [ST]. *)
Definition reading {S A} (f : S → option A) : ST S A :=
  λ s, match f s with Some a => Some (a, s) | None => None end.

(** Computations over the store. *)
Abbreviation M := (ST Store).

Notation "'let*' x ':=' m 'in' k" := (bind m (λ x, k))
  (at level 10, x name, m at level 100, k at level 200).
Notation "'let*' ' p ':=' m 'in' k" := (bind m (λ x, match x with p => k end))
  (at level 10, p pattern, m at level 100, k at level 200).
Notation "'let?' x ':=' m 'in' k" :=
  (match m with Some x => k | None => None end)
  (at level 10, x name, m at level 100, k at level 200).
Notation "m1 ';;;' m2" := (bind m1 (λ _, m2))
  (at level 100, m2 at level 200, right associativity).

(** [for (const x of l) body(x)] *)
Fixpoint forEach {S A} (l : list A) (body : A → ST S unit) : ST S unit :=
  match l with
  | [] => ret tt
  | x :: l' => body x ;;; forEach l' body
  end.

(** Element [i] of a JavaScript array; [None] is undefined. *)
Definition nthZ {A} (l : list A) (i : Z) : option A :=
  if 0 <=? i then l !! Z.to_nat i else None.

Definition inRange {A} (l : list A) (i : Z) : bool :=
  (0 <=? i) && (i <? Z.of_nat (length l)).

Definition getPiece (s : Store) (p : pref) : option Piece := pieces s !! p.
Definition getArray (s : Store) (a : aref) : option (list Square) := arrays s !! a.
Definition getRow (s : Store) (r : rref) : option (list (option pref)) := rows s !! r.

Definition putPiece (p : pref) (v : Piece) : M unit :=
  λ s, Some (tt, mkStore (<[p := v]> (pieces s)) (arrays s) (rows s) (next s)).
Definition putArray (a : aref) (l : list Square) : M unit :=
  λ s, Some (tt, mkStore (pieces s) (<[a := l]> (arrays s)) (rows s) (next s)).
Definition putRow (r : rref) (c : list (option pref)) : M unit :=
  λ s, Some (tt, mkStore (pieces s) (arrays s) (<[r := c]> (rows s)) (next s)).

(** Assignment to a field of an existing piece object. *)
Definition modifyPiece (p : pref) (f : Piece → Piece) : M unit :=
  let* v := reading (λ s, getPiece s p) in putPiece p (f v).

Definition newArray (l : list Square) : M aref :=
  λ s, Some (next s, mkStore (pieces s) (<[next s := l]> (arrays s)) (rows s)
                             (Pos.succ (next s))).
Definition newRow (c : list (option pref)) : M rref :=
  λ s, Some (next s, mkStore (pieces s) (arrays s) (<[next s := c]> (rows s))
                             (Pos.succ (next s))).
Definition allocPiece (v : Piece) : M pref :=
  λ s, Some (next s, mkStore (<[next s := v]> (pieces s)) (arrays s) (rows s)
                             (Pos.succ (next s))).

(** [new K(color, position, img)]: every constructor creates its own empty
    [availableMoves] array; counters start at 0, flags at false, the Pawn's
    [previousCoordinate] and [enPassantMoves] at null. *)
Definition newPiece (k : Kind) (c : Color) (pos : Square) : M pref :=
  let* a := newArray [] in
  allocPiece (mkPiece k c pos 0 false a None None).

(** [JSON.parse(JSON.stringify(arr))]: a new array with the same squares. *)
Definition jsonCopy (a : aref) : M aref :=
  let* l := reading (λ s, getArray s a) in newArray l.

(** ** Board *)

Record Board := mkBoard {
  grid : list rref;
  wKing : pref;
  bKing : pref;
  wRookLeft : pref;
  wRookRight : pref;
  bRookLeft : pref;
  bRookRight : pref
}.

Definition set_grid (g : list rref) (b : Board) : Board :=
  mkBoard g (wKing b) (bKing b) (wRookLeft b) (wRookRight b) (bRookLeft b) (bRookRight b).
Definition set_wKing (k : pref) (b : Board) : Board :=
  mkBoard (grid b) k (bKing b) (wRookLeft b) (wRookRight b) (bRookLeft b) (bRookRight b).
Definition set_bKing (k : pref) (b : Board) : Board :=
  mkBoard (grid b) (wKing b) k (wRookLeft b) (wRookRight b) (bRookLeft b) (bRookRight b).

(** [this.grid[r][c]] as an expression: a TypeError when [this.grid[r]] is
    undefined, undefined (here [None], like null) when only the column is out
    of range. *)
Definition gridGet (s : Store) (b : Board) (r c : Z) : option (option pref) :=
  match nthZ (grid b) r with
  | None => None
  | Some rr =>
      match getRow s rr with
      | None => None
      | Some cells =>
          match nthZ cells c with
          | Some cell => Some cell
          | None => Some None
          end
      end
  end.

(** [this.grid[r]?.[c]]: undefined instead of a TypeError. *)
Definition gridGetOpt (s : Store) (b : Board) (r c : Z) : option (option pref) :=
  match nthZ (grid b) r with
  | None => Some None
  | Some _ => gridGet s b r c
  end.

(** [this.grid[r][c] = v].  JavaScript would extend the row (or add a
    property) for a column outside it; the embedding stops there. *)
Definition gridSet (b : Board) (r c : Z) (v : option pref) : M unit :=
  match nthZ (grid b) r with
  | None => raise
  | Some rr =>
      let* cells := reading (λ s, getRow s rr) in
      if inRange cells c then putRow rr (<[Z.to_nat c := v]> cells) else raise
  end.

(** The grid accesses one call performs, in order. *)
Inductive GridRead :=
| ReadRow (r : Z)
| ReadCell (r c : Z).

(** [Board.isSquareOccupied(position)], together with the reads of grid
    elements it makes; the conjunction short-circuits from the left. *)
Definition isSquareOccupied_reads (s : Store) (b : Board) (pos : Square)
  : option (bool * list GridRead) :=
  if (0 <=? row pos) && (row pos <? Z.of_nat (length (grid b))) && (0 <=? column pos) then
    match nthZ (grid b) (row pos) with
    | None => None
    | Some rr =>
        match getRow s rr with
        | None => None
        | Some cells =>
            if column pos <? Z.of_nat (length cells) then
              match nthZ cells (column pos) with
              | Some cell => Some (bool_decide (cell ≠ None),
                                   [ReadRow (row pos); ReadRow (row pos);
                                    ReadCell (row pos) (column pos)])
              | None => Some (false, [ReadRow (row pos); ReadRow (row pos);
                                      ReadCell (row pos) (column pos)])
              end
            else Some (false, [ReadRow (row pos)])
        end
    end
  else Some (false, []).

Definition isSquareOccupied (s : Store) (b : Board) (pos : Square) : option bool :=
  fst <$> isSquareOccupied_reads s b pos.

(** [Board.getPieceAtPosition(position)] *)
Definition getPieceAtPosition (s : Store) (b : Board) (pos : Square) : option (option pref) :=
  gridGet s b (row pos) (column pos).

(** [board.getPieceAtPosition(sq).color] and [pieceAtSquare?.color]: the
    first raises on null, the second yields undefined. *)
Definition colorAt (s : Store) (b : Board) (sq : Square) : option Color :=
  match getPieceAtPosition s b sq with
  | Some (Some p) => color <$> getPiece s p
  | _ => None
  end.

(** ** Piece catalog: move generation

    Each [possibleMoves(board)] empties the piece's own array, pushes the
    squares it finds and returns the array.  Nothing reads the array between
    the pushes, so a generator below gathers the pushed squares in order from
    a read-only pass over the store, and [possibleMoves] stores them at
    once. *)

Definition onBoard (r c : Z) : bool :=
  (0 <=? r) && (r <? 8) && (0 <=? c) && (c <? 8).

(** Left-to-right [&&] over conditions that read the store. *)
Definition andThen (a b : option bool) : option bool :=
  let? x := a in if x then b else Some false.
Definition notOccupied (s : Store) (b : Board) (r c : Z) : option bool :=
  negb <$> isSquareOccupied s b (mkSquare r c).

Record PawnDirection := mkPawnDirection {
  forwardRow : Z; forwardColumn : Z;
  northwestRow : Z; northwestColumn : Z;
  northeastRow : Z; northeastColumn : Z
}.

(** The diagonal capture of a pawn: pushed when the square is occupied and
    [pieceAtSquare?.color !== this.color]. *)
Definition pawnCapture (s : Store) (b : Board) (this : Piece) (sq : Square)
  : option (list Square) :=
  let? occ := isSquareOccupied s b sq in
  if occ then
    let? pieceAtSquare := getPieceAtPosition s b sq in
    match pieceAtSquare with
    | Some p =>
        let? v := getPiece s p in
        Some (if bool_decide (color v ≠ color this) then [sq] else [])
    | None => Some [sq]
    end
  else Some [].

Definition Pawn_possibleMoves (s : Store) (b : Board) (this : Piece)
  : option (list Square) :=
  let direction :=
    match color this with
    | White => mkPawnDirection (-1) 0 (-1) (-1) (-1) 1
    | Black => mkPawnDirection 1 0 1 (-1) 1 1
    end in
  let startRow := match color this with White => 6 | Black => 1 end in
  let r := row (position this) in
  let c := column (position this) in
  let nextRow := r + forwardRow direction in
  if (0 <=? nextRow) && (nextRow <=? 7) then
    let? occ := isSquareOccupied s b (mkSquare nextRow c) in
    let? forward :=
      (if occ then Some []
       else
         let? double := andThen (Some (r =? startRow))
                          (notOccupied s b (nextRow + forwardRow direction) c) in
         Some (if double
               then [mkSquare nextRow c; mkSquare (nextRow + forwardRow direction) c]
               else [mkSquare nextRow c])) in
    let? northwest := pawnCapture s b this
                  (mkSquare (r + northwestRow direction) (c + northwestColumn direction)) in
    let? northeast := pawnCapture s b this
                  (mkSquare (r + northeastRow direction) (c + northeastColumn direction)) in
    Some (forward ++ northwest ++ northeast)
  else Some [].

(** The rule shared by Knight and King for one target square: a capture when
    [pieceAtSquare.color !== this.color], a plain move when empty. *)
Definition stepTo (s : Store) (b : Board) (this : Piece) (sq : Square)
  : option (list Square) :=
  let? occ := isSquareOccupied s b sq in
  if occ then
    let? c := colorAt s b sq in
    Some (if bool_decide (c ≠ color this) then [sq] else [])
  else Some [sq].

Definition knightDirections : list (Z * Z) :=
  [(-2, -1); (-2, 1); (-1, -2); (-1, 2); (1, -2); (1, 2); (2, -1); (2, 1)].

(** [directions.forEach(...)], the squares of each direction in turn. *)
Fixpoint forDirections (directions : list (Z * Z))
    (f : Z * Z → option (list Square)) : option (list Square) :=
  match directions with
  | [] => Some []
  | d :: rest =>
      let? here := f d in
      let? others := forDirections rest f in
      Some (here ++ others)
  end.

Definition Knight_possibleMoves (s : Store) (b : Board) (this : Piece)
  : option (list Square) :=
  forDirections knightDirections (λ direction,
    let newRow := row (position this) + direction.1 in
    let newColumn := column (position this) + direction.2 in
    if onBoard newRow newColumn
    then stepTo s b this (mkSquare newRow newColumn)
    else Some []).

(** The [while] loop of Rook, Bishop and Queen along one direction.  It runs
    while the square is on the board; [fuel] bounds the iterations and [None]
    also stands for running out of it. *)
Fixpoint ray (fuel : nat) (s : Store) (b : Board) (this : Piece)
    (direction : Z * Z) (nextRow nextColumn : Z) : option (list Square) :=
  match fuel with
  | O => None
  | S fuel' =>
      if onBoard nextRow nextColumn then
        let? occ := isSquareOccupied s b (mkSquare nextRow nextColumn) in
        if occ then
          let? c := colorAt s b (mkSquare nextRow nextColumn) in
          Some (if bool_decide (c ≠ color this)
                then [mkSquare nextRow nextColumn] else [])
        else
          let? further := ray fuel' s b this direction
                       (nextRow + direction.1) (nextColumn + direction.2) in
          Some (mkSquare nextRow nextColumn :: further)
      else Some []
  end.

Definition rayFuel : nat := 9.

Definition slide (directions : list (Z * Z)) (s : Store) (b : Board) (this : Piece)
  : option (list Square) :=
  forDirections directions (λ direction,
    ray rayFuel s b this direction
        (row (position this) + direction.1)
        (column (position this) + direction.2)).

Definition rookDirections : list (Z * Z) := [(-1, 0); (1, 0); (0, -1); (0, 1)].
Definition bishopDirections : list (Z * Z) := [(-1, -1); (-1, 1); (1, -1); (1, 1)].
Definition queenDirections : list (Z * Z) :=
  [(-1, -1); (-1, 1); (1, -1); (1, 1); (-1, 0); (1, 0); (0, -1); (0, 1)].

Definition Rook_possibleMoves := slide rookDirections.
Definition Bishop_possibleMoves := slide bishopDirections.
Definition Queen_possibleMoves := slide queenDirections.

Definition kingDirections : list (Z * Z) :=
  [(-1, -1); (-1, 1); (1, -1); (1, 1); (-1, 0); (1, 0); (0, -1); (0, 1)].

(** [(this.color === "White" && !board.wRookX.hasMoved()) ||
     (this.color === "Black" && !board.bRookX.hasMoved())] *)
Definition rookNotMoved (s : Store) (this : Piece) (wRook bRook : pref) : option bool :=
  match color this with
  | White => let? rk := getPiece s wRook in Some (negb (hasMoved rk))
  | Black => let? rk := getPiece s bRook in Some (negb (hasMoved rk))
  end.

(** The queenside test of [King.possibleMoves], in the direction (0, -1). *)
Definition castleLeft (s : Store) (b : Board) (this : Piece) (nextRow nextColumn : Z)
  : option bool :=
  andThen (notOccupied s b nextRow nextColumn)
 (andThen (notOccupied s b nextRow (nextColumn - 1))
 (andThen (notOccupied s b nextRow (nextColumn - 2))
 (andThen (Some (negb (hasMoved this)))
          (rookNotMoved s this (wRookLeft b) (bRookLeft b))))).

(** The kingside test, in the direction (0, 1). *)
Definition castleRight (s : Store) (b : Board) (this : Piece) (nextRow nextColumn : Z)
  : option bool :=
  andThen (notOccupied s b nextRow nextColumn)
 (andThen (notOccupied s b nextRow (nextColumn + 1))
 (andThen (Some (negb (hasMoved this)))
          (rookNotMoved s this (wRookRight b) (bRookRight b)))).

Definition King_possibleMoves (s : Store) (b : Board) (this : Piece)
  : option (list Square) :=
  forDirections kingDirections (λ direction,
    let nextRow := row (position this) + direction.1 in
    let nextColumn := column (position this) + direction.2 in
    if onBoard nextRow nextColumn then
      let? castling :=
        (if (direction.1 =? 0) && (direction.2 =? -1) then
           let? ok := castleLeft s b this nextRow nextColumn in
           Some (if ok then [mkSquare nextRow (nextColumn - 1)] else [])
         else if (direction.1 =? 0) && (direction.2 =? 1) then
           let? ok := castleRight s b this nextRow nextColumn in
           Some (if ok then [mkSquare nextRow (nextColumn + 1)] else [])
         else Some []) in
      let? standard := stepTo s b this (mkSquare nextRow nextColumn) in
      Some (castling ++ standard)
    else Some []).

(** Dispatch on the class of the receiver. *)
Definition generate (s : Store) (b : Board) (this : Piece) : option (list Square) :=
  match kind this with
  | Pawn => Pawn_possibleMoves s b this
  | Rook => Rook_possibleMoves s b this
  | Knight => Knight_possibleMoves s b this
  | Bishop => Bishop_possibleMoves s b this
  | Queen => Queen_possibleMoves s b this
  | King => King_possibleMoves s b this
  end.

(** [piece.possibleMoves(board)]: the piece's array is overwritten in place
    and its content returned. *)
Definition possibleMoves (b : Board) (p : pref) : M (list Square) :=
  let* this := reading (λ s, getPiece s p) in
  let* moves := reading (λ s, generate s b this) in
  putArray (availableMoves this) moves ;;;
  ret moves.

(** ** Board: construction, queries, moves, clone *)

Fixpoint foldM {S A B} (f : B → A → ST S B) (l : list A) (acc : B) : ST S B :=
  match l with
  | [] => ret acc
  | x :: l' => let* acc' := f acc x in foldM f l' acc'
  end.

(** The indices [0 .. n-1] of a [for (let i = 0; i < n; i++)] loop. *)
Definition upTo (n : Z) : list Z := seqZ 0 n.

Definition pieceTypes : list Kind :=
  [Rook; Knight; Bishop; Queen; King; Bishop; Knight; Rook].

(** [Board.initializeBoard()] on a grid of nulls. *)
Definition initializeBoard (b : Board) : M unit :=
  forEach (upTo 8) (λ i,
    let* bp := newPiece Pawn Black (mkSquare 1 i) in
    gridSet b 1 i (Some bp) ;;;
    modifyPiece bp (set_previousCoordinate (Some (mkSquare 1 i))) ;;;
    let* wp := newPiece Pawn White (mkSquare 6 i) in
    gridSet b 6 i (Some wp) ;;;
    modifyPiece wp (set_previousCoordinate (Some (mkSquare 6 i)))) ;;;
  forEach (upTo 8) (λ i,
    match nthZ pieceTypes i with
    | None => raise
    | Some k =>
        let* bpc := newPiece k Black (mkSquare 0 i) in
        gridSet b 0 i (Some bpc) ;;;
        let* wpc := newPiece k White (mkSquare 7 i) in
        gridSet b 7 i (Some wpc)
    end).

(** A handle is read from a square that holds a piece. *)
Definition pieceOn (b : Board) (r c : Z) : M pref :=
  let* cell := reading (λ s, gridGet s b r c) in
  match cell with Some p => ret p | None => raise end.

(** [new Board()] *)
Definition newBoard : M Board :=
  let* g := foldM (λ acc _, let* rr := newRow (replicate 8 None) in ret (acc ++ [rr]))
                  (upTo 8) [] in
  let b0 := mkBoard g 1%positive 1%positive 1%positive 1%positive 1%positive 1%positive in
  initializeBoard b0 ;;;
  let* wk := pieceOn b0 7 4 in
  let* bk := pieceOn b0 0 4 in
  let* wrl := pieceOn b0 7 0 in
  let* wrr := pieceOn b0 7 7 in
  let* brl := pieceOn b0 0 0 in
  let* brr := pieceOn b0 0 7 in
  ret (mkBoard g wk bk wrl wrr brl brr).

(** The length of row [i], as [board.grid[i].length]. *)
Definition rowLength (s : Store) (b : Board) (i : Z) : option Z :=
  let? rr := nthZ (grid b) i in
  let? cells := getRow s rr in
  Some (Z.of_nat (length cells)).

(** [Board.getAllPiecesMoves(turn, board)]: every piece of colour [turn]
    regenerates its moves, and the squares are gathered in grid order. *)
Definition getAllPiecesMoves (turn : Color) (b : Board) : M (list Square) :=
  foldM (λ acc i,
    let* n := reading (λ s, rowLength s b i) in
    foldM (λ acc j,
      let* cell := reading (λ s, gridGetOpt s b i j) in
      match cell with
      | None => ret acc
      | Some p =>
          let* v := reading (λ s, getPiece s p) in
          if bool_decide (color v = turn)
          then let* moves := possibleMoves b p in ret (acc ++ moves)
          else ret acc
      end) (upTo n) acc)
    (upTo (Z.of_nat (length (grid b)))) [].

(** The piece on a square that the code dereferences without a null test. *)
Definition derefAt (b : Board) (r c : Z) : M (pref * Piece) :=
  let* p := pieceOn b r c in
  let* v := reading (λ s, getPiece s p) in
  ret (p, v).

(** The rook relocation of a castling move: [grid[r][cTo] = grid[r][cFrom];
    grid[r][cFrom] = null; grid[r][cTo].position = {row: r, column: cTo}]. *)
Definition relocateRook (b : Board) (r cFrom cTo : Z) : M unit :=
  let* cell := reading (λ s, gridGet s b r cFrom) in
  gridSet b r cTo cell ;;;
  gridSet b r cFrom None ;;;
  let* '(p, _) := derefAt b r cTo in
  modifyPiece p (set_position (mkSquare r cTo)).

Definition setKingHandle (b : Board) (king : pref) (v : Piece) : Board :=
  match color v with
  | White => set_wKing king b
  | Black => set_bKing king b
  end.

(** [Board.movePiece(fromPosition, toPosition)].  The Rook branch builds an
    arrow function it never calls, so the rook handles are not reassigned. *)
Definition movePiece (b : Board) (fromPosition toPosition : Square) : M Board :=
  let fromRow := row fromPosition in
  let fromColumn := column fromPosition in
  let toRow := row toPosition in
  let toColumn := column toPosition in
  let* '(_, mover) := derefAt b fromRow fromColumn in
  (match enPassantMoves mover with
   | Some ep =>
       if sameSquare ep toPosition then
         match color mover with
         | White => gridSet b (toRow + 1) toColumn None
         | Black => gridSet b (toRow - 1) toColumn None
         end
       else ret tt
   | None => ret tt
   end) ;;;
  let* cell := reading (λ s, gridGet s b fromRow fromColumn) in
  let* b' :=
    match cell with
    | None => ret b
    | Some p =>
        let* v := reading (λ s, getPiece s p) in
        match kind v with
        | King =>
            (if negb (hasMoved v) then
               if (toRow =? 7) && (toColumn =? 6) then relocateRook b 7 7 5
               else if (toRow =? 7) && (toColumn =? 2) then relocateRook b 7 0 3
               else if (toRow =? 0) && (toColumn =? 6) then relocateRook b 0 7 5
               else if (toRow =? 0) && (toColumn =? 2) then relocateRook b 0 0 3
               else ret tt
             else ret tt) ;;;
            modifyPiece p (λ k, set_amtMove (amtMove k + 1) k) ;;;
            ret (setKingHandle b p v)
        | Rook =>
            modifyPiece p (λ k, set_amtMove (amtMove k + 1) k) ;;;
            ret b
        | _ => ret b
        end
    end in
  let* cell1 := reading (λ s, gridGet s b fromRow fromColumn) in
  (match cell1 with
   | None => ret tt
   | Some p =>
       let* v := reading (λ s, getPiece s p) in
       if bool_decide (kind v = Pawn)
       then modifyPiece p (set_previousCoordinate (Some (mkSquare fromRow fromColumn)))
       else ret tt
   end) ;;;
  let* cell2 := reading (λ s, gridGet s b fromRow fromColumn) in
  gridSet b toRow toColumn cell2 ;;;
  gridSet b fromRow fromColumn None ;;;
  let* '(moved, _) := derefAt b toRow toColumn in
  modifyPiece moved (set_position toPosition) ;;;
  ret b'.

(** A handle of the clone: [new K(h.color, h.position, h.img)]. *)
Definition cloneHandle (k : Kind) (h : pref) : M (pref * Piece) :=
  let* v := reading (λ s, getPiece s h) in
  let* p := newPiece k (color v) (position v) in
  ret (p, v).

(** A rook handle of the clone takes the counter and the very array of the
    original handle. *)
Definition cloneRookHandle (h : pref) : M pref :=
  let* '(p, v) := cloneHandle Rook h in
  modifyPiece p (set_amtMove (amtMove v)) ;;;
  modifyPiece p (set_availableMoves (availableMoves v)) ;;;
  ret p.

Definition cloneKingHandle (h : pref) : M pref :=
  let* '(p, v) := cloneHandle King h in
  modifyPiece p (set_amtMove (amtMove v)) ;;;
  modifyPiece p (set_check (check v)) ;;;
  ret p.

(** The copy of the grid of [clone]: [this.grid.map((row) => [...row])]. *)
Definition cloneRows (rowsOf : list rref) (acc : list rref) : M (list rref) :=
  foldM (λ acc rr,
           let* cells := reading (λ s, getRow s rr) in
           let* rr' := newRow cells in
           ret (acc ++ [rr']))
        rowsOf acc.

(** The body of the two loops of [clone] over the squares: the piece of
    [this] on (r, c), if any, is constructed anew on the square of [nb]. *)
Definition cloneCell (this nb : Board) (r c : Z) : M unit :=
  let* cell := reading (λ s, gridGet s this r c) in
  match cell with
  | Some p =>
      let* v := reading (λ s, getPiece s p) in
      let* p' := newPiece (kind v) (color v)
                   (mkSquare (row (position v)) (column (position v))) in
      gridSet nb r c (Some p') ;;;
      if bool_decide (kind v = Pawn)
      then modifyPiece p' (set_enPassantMoves (enPassantMoves v))
      else ret tt
  | None => gridSet nb r c None
  end.

(** [Board.clone()].  The [new Board()] it starts from only supplies objects
    that are all replaced before the clone is returned (the grid, the six
    handles), so none of them is allocated here. *)
Definition clone (this : Board) : M Board :=
  let* g := cloneRows (grid this) [] in
  let nb := set_grid g this in
  forEach (upTo 8) (λ r, forEach (upTo 8) (λ c, cloneCell this nb r c)) ;;;
  let* bk := cloneKingHandle (bKing this) in
  let* wk := cloneKingHandle (wKing this) in
  let* brl := cloneRookHandle (bRookLeft this) in
  let* brr := cloneRookHandle (bRookRight this) in
  let* wrl := cloneRookHandle (wRookLeft this) in
  let* wrr := cloneRookHandle (wRookRight this) in
  let nb' := mkBoard g wk bk wrl wrr brl brr in
  let* wkv := reading (λ s, getPiece s wk) in
  gridSet nb' (row (position wkv)) (column (position wkv)) (Some wk) ;;;
  let* bkv := reading (λ s, getPiece s bk) in
  gridSet nb' (row (position bkv)) (column (position bkv)) (Some bk) ;;;
  ret nb'.

(** ** Rules: the parts that work on the store *)

Inductive Mode := actual | virtual.

(** The loop of [checkVerifyForBlackTeam] / [checkVerifyForWhiteTeam] over
    the opposing moves: [true] when it returns the team's name, [false] when
    it falls off the end (undefined). *)
Fixpoint checkVerifyFor (king : pref) (mode : Mode) (moves : list Square) : M bool :=
  match moves with
  | [] => ret false
  | move :: rest =>
      let* k := reading (λ s, getPiece s king) in
      if (row move =? row (position k)) && (column move =? column (position k)) then
        (match mode with
         | actual => modifyPiece king (set_check true)
         | virtual => ret tt
         end) ;;;
        ret true
      else
        modifyPiece king (set_check false) ;;;
        checkVerifyFor king mode rest
  end.

(** [Rules.checkVerification(board, mode, piece)]: the colour of a king in
    check, the team of [piece] being tested first; [None] is undefined. *)
Definition checkVerification (b : Board) (mode : Mode) (piece : pref)
  : M (option Color) :=
  let* pieceMovesWhites := getAllPiecesMoves White b in
  let* pieceMovesBlacks := getAllPiecesMoves Black b in
  let checkVerifyForBlackTeam := checkVerifyFor (bKing b) mode pieceMovesWhites in
  let checkVerifyForWhiteTeam := checkVerifyFor (wKing b) mode pieceMovesBlacks in
  let* v := reading (λ s, getPiece s piece) in
  match color v with
  | White =>
      let* w := checkVerifyForWhiteTeam in
      if w then ret (Some White)
      else
        let* k := checkVerifyForBlackTeam in
        if k then ret (Some Black) else ret None
  | Black =>
      let* k := checkVerifyForBlackTeam in
      if k then ret (Some Black)
      else
        let* w := checkVerifyForWhiteTeam in
        if w then ret (Some White) else ret None
  end.

(** [arr.filter(pred)]: a new array. *)
Definition arrayFilter (pred : Square → bool) (a : aref) : M aref :=
  let* l := reading (λ s, getArray s a) in
  newArray (List.filter pred l).

(** The body of the [for (const vMove of staticAvailableMoves)] loop of
    [filterPieceMove].  The loop walks the array it was started on, whose
    squares are [vMoves]; the variable [staticAvailableMoves] may be
    reassigned to a filtered copy meanwhile. *)
Fixpoint filterPieceLoop (live : Board) (piece : pref) (mode : Mode)
    (initialPosition : Square) (vMoves : list Square)
    (staticAvailableMoves : aref) (board : Board) : M unit :=
  match vMoves with
  | [] => ret tt
  | vMove :: rest =>
      let* moved := movePiece board initialPosition vMove in
      let* inCheck := checkVerification moved mode piece in
      let* v := reading (λ s, getPiece s piece) in
      let* static' :=
        (if bool_decide (inCheck = Some (color v)) then
           arrayFilter (λ move, negb (row move =? row vMove)
                                || negb (column move =? column vMove))
                       staticAvailableMoves
         else ret staticAvailableMoves) in
      let* board' := clone live in
      modifyPiece piece (set_availableMoves static') ;;;
      filterPieceLoop live piece mode initialPosition rest static' board'
  end.

(** [Rules.filterPieceMove(staticAvailableMoves, piece, mode)], where [live]
    is [this.board]. *)
Definition filterPieceMove (live : Board) (staticAvailableMoves : aref)
    (piece : pref) (mode : Mode) : M aref :=
  let* board := clone live in
  let* v := reading (λ s, getPiece s piece) in
  let initialPosition := position v in
  let* vMoves := reading (λ s, getArray s staticAvailableMoves) in
  filterPieceLoop live piece mode initialPosition vMoves staticAvailableMoves board ;;;
  let* v' := reading (λ s, getPiece s piece) in
  ret (availableMoves v').

(** [arr.push(sq)] on the array of a piece. *)
Definition pushMove (p : pref) (sq : Square) : M unit :=
  let* v := reading (λ s, getPiece s p) in
  let* l := reading (λ s, getArray s (availableMoves v)) in
  putArray (availableMoves v) (l ++ [sq]).

(** The neighbour test of [checkEnPassant]: [grid[r][c] &&
    grid[r][c].color != capturedPiece.color]. *)
Definition capturerAt (s : Store) (b : Board) (r c : Z) (captured : Piece)
  : option (list pref) :=
  let? cell := gridGet s b r c in
  match cell with
  | Some p =>
      let? v := getPiece s p in
      Some (if bool_decide (color v ≠ color captured) then [p] else [])
  | None => Some []
  end.

(** [Rules.checkEnPassant()], given [this.board], [this.enPassantTarget] and
    [this.selectedPiece]. *)
Definition checkEnPassant (b : Board) (enPassantTarget selectedPiece : option pref)
  : M unit :=
  match enPassantTarget with
  | None => ret tt
  | Some target =>
      let* capturedPiece := reading (λ s, getPiece s target) in
      let r := match color capturedPiece with White => 4 | Black => 3 end in
      let c := column (position capturedPiece) in
      let* left := reading (λ s, capturerAt s b r (c - 1) capturedPiece) in
      let* right := reading (λ s, capturerAt s b r (c + 1) capturedPiece) in
      let capturingPieces := left ++ right in
      let behind :=
        match color capturedPiece with
        | White => mkSquare (row (position capturedPiece) + 1) c
        | Black => mkSquare (row (position capturedPiece) - 1) c
        end in
      if bool_decide (capturingPieces ≠ []) then
        forEach capturingPieces (λ p, pushMove p behind) ;;;
        match selectedPiece with
        | Some sel => modifyPiece sel (set_enPassantMoves (Some behind))
        | None => raise
        end
      else ret tt
  end.

(** ** Rules and Game: the state machine

    [Game], [Rules] and [UI] hold the same [Board] object; the record below
    has one [board] field for it and the fields of [Rules], the
    [gameSituation] that [Game] assigns on itself by [this.gameSituation]
    ([ownGameSituation]), and whether the delegated click handler installed
    by [bindEventListeners] is still bound ([clickBound]; cleared by
    [$("table").off("click", "td")]).  The DOM updates of [UI] and the
    console output have no effect on any of these and are left out. *)

Inductive Phase := ChoosingPiece | MovingAPiece | PawnPromotion.
Inductive Situation := Casual | Check | CHECKMATE | Stalemate.

#[global] Instance Phase_eq_dec : EqDecision Phase.
Proof. solve_decision. Defined.
#[global] Instance Situation_eq_dec : EqDecision Situation.
Proof. solve_decision. Defined.

Record Game := mkGame {
  store : Store;
  board : Board;
  turn : Color;
  selectedPiece : option pref;
  gameSituation : Situation;
  state : Phase;
  enPassantTarget : option pref;
  availableMovesBlacks : Z;
  availableMovesWhite : Z;
  pawnInPromotion : option (Z * Z);
  canCastle : bool;
  ownGameSituation : option Situation;
  clickBound : bool
}.

Definition set_store (x : Store) (g : Game) : Game :=
  mkGame x (board g) (turn g) (selectedPiece g) (gameSituation g) (state g)
         (enPassantTarget g) (availableMovesBlacks g) (availableMovesWhite g)
         (pawnInPromotion g) (canCastle g) (ownGameSituation g) (clickBound g).
Definition set_board (x : Board) (g : Game) : Game :=
  mkGame (store g) x (turn g) (selectedPiece g) (gameSituation g) (state g)
         (enPassantTarget g) (availableMovesBlacks g) (availableMovesWhite g)
         (pawnInPromotion g) (canCastle g) (ownGameSituation g) (clickBound g).
Definition set_turn (x : Color) (g : Game) : Game :=
  mkGame (store g) (board g) x (selectedPiece g) (gameSituation g) (state g)
         (enPassantTarget g) (availableMovesBlacks g) (availableMovesWhite g)
         (pawnInPromotion g) (canCastle g) (ownGameSituation g) (clickBound g).
Definition set_selectedPiece (x : option pref) (g : Game) : Game :=
  mkGame (store g) (board g) (turn g) x (gameSituation g) (state g)
         (enPassantTarget g) (availableMovesBlacks g) (availableMovesWhite g)
         (pawnInPromotion g) (canCastle g) (ownGameSituation g) (clickBound g).
Definition set_gameSituation (x : Situation) (g : Game) : Game :=
  mkGame (store g) (board g) (turn g) (selectedPiece g) x (state g)
         (enPassantTarget g) (availableMovesBlacks g) (availableMovesWhite g)
         (pawnInPromotion g) (canCastle g) (ownGameSituation g) (clickBound g).
Definition set_state (x : Phase) (g : Game) : Game :=
  mkGame (store g) (board g) (turn g) (selectedPiece g) (gameSituation g) x
         (enPassantTarget g) (availableMovesBlacks g) (availableMovesWhite g)
         (pawnInPromotion g) (canCastle g) (ownGameSituation g) (clickBound g).
Definition set_enPassantTarget (x : option pref) (g : Game) : Game :=
  mkGame (store g) (board g) (turn g) (selectedPiece g) (gameSituation g) (state g)
         x (availableMovesBlacks g) (availableMovesWhite g)
         (pawnInPromotion g) (canCastle g) (ownGameSituation g) (clickBound g).
Definition set_availableMovesCounts (blacks whites : Z) (g : Game) : Game :=
  mkGame (store g) (board g) (turn g) (selectedPiece g) (gameSituation g) (state g)
         (enPassantTarget g) blacks whites
         (pawnInPromotion g) (canCastle g) (ownGameSituation g) (clickBound g).
Definition set_pawnInPromotion (x : option (Z * Z)) (g : Game) : Game :=
  mkGame (store g) (board g) (turn g) (selectedPiece g) (gameSituation g) (state g)
         (enPassantTarget g) (availableMovesBlacks g) (availableMovesWhite g)
         x (canCastle g) (ownGameSituation g) (clickBound g).
Definition set_canCastle (x : bool) (g : Game) : Game :=
  mkGame (store g) (board g) (turn g) (selectedPiece g) (gameSituation g) (state g)
         (enPassantTarget g) (availableMovesBlacks g) (availableMovesWhite g)
         (pawnInPromotion g) x (ownGameSituation g) (clickBound g).
Definition set_ownGameSituation (x : option Situation) (g : Game) : Game :=
  mkGame (store g) (board g) (turn g) (selectedPiece g) (gameSituation g) (state g)
         (enPassantTarget g) (availableMovesBlacks g) (availableMovesWhite g)
         (pawnInPromotion g) (canCastle g) x (clickBound g).
Definition set_clickBound (x : bool) (g : Game) : Game :=
  mkGame (store g) (board g) (turn g) (selectedPiece g) (gameSituation g) (state g)
         (enPassantTarget g) (availableMovesBlacks g) (availableMovesWhite g)
         (pawnInPromotion g) (canCastle g) (ownGameSituation g) x.

Abbreviation G := (ST Game).

Definition get {A} (f : Game → A) : G A := λ g, Some (f g, g).
Definition update (f : Game → Game) : G unit := λ g, Some (tt, f g).
(** A store computation run on the store of the game. *)
Definition onStore {A} (m : M A) : G A :=
  λ g, match m (store g) with
       | Some (a, s') => Some (a, set_store s' g)
       | None => None
       end.
(** A read of the store of the game. *)
Definition look {A} (f : Store → option A) : G A := onStore (reading f).

(** [$("table").off("click", "td")] *)
Definition unbindClicks : G unit := update (set_clickBound false).

(** [Rules.validateTurn(uiClick)] *)
Definition validateTurn (uiClick : Square) : G bool :=
  let* b := get board in
  let* t := get turn in
  let* cell := look (λ s, gridGet s b (row uiClick) (column uiClick)) in
  match cell with
  | Some p =>
      let* v := look (λ s, getPiece s p) in
      ret (bool_decide (color v = t))
  | None => ret false
  end.

(** [Rules.switchTurn()] *)
Definition switchTurn : G unit :=
  let* t := get turn in
  match t with
  | White => update (set_turn Black)
  | Black => update (set_turn White)
  end.

(** The piece behind [this.selectedPiece], dereferenced. *)
Definition selected : G (pref * Piece) :=
  let* sel := get selectedPiece in
  match sel with
  | Some p => let* v := look (λ s, getPiece s p) in ret (p, v)
  | None => raise
  end.

(** [Rules.validateUiMove(uiClick)]: whether some available move of the
    selected piece stringifies like the click. *)
Definition validateUiMove (uiClick : Square) : G bool :=
  let* '(_, v) := selected in
  let* availableMoves := look (λ s, getArray s (availableMoves v)) in
  ret (existsb (sameSquare uiClick) availableMoves).

(** [Rules.checkRowForPawn(row)]: the first pawn of the row, of either
    colour, is recorded in [pawnInPromotion]. *)
Fixpoint firstPawn (s : Store) (b : Board) (r : Z) (columns : list Z) : option (option Z) :=
  match columns with
  | [] => Some None
  | i :: rest =>
      let? cell := gridGet s b r i in
      match cell with
      | Some p =>
          let? v := getPiece s p in
          if bool_decide (kind v = Pawn) then Some (Some i) else firstPawn s b r rest
      | None => firstPawn s b r rest
      end
  end.

Definition checkRowForPawn (r : Z) : G bool :=
  let* b := get board in
  let* found := look (λ s, firstPawn s b r (upTo 8)) in
  match found with
  | Some i => update (set_pawnInPromotion (Some (r, i))) ;;; ret true
  | None => ret false
  end.

(** [Rules.checkPawnPromotion()] *)
Definition checkPawnPromotion : G bool :=
  let* t := get turn in
  match t with
  | White => checkRowForPawn 0
  | Black => checkRowForPawn 7
  end.

Definition opponent (c : Color) : Color :=
  match c with White => Black | Black => White end.

(** The loop of [checkPossibleCastling] over the opposing moves, with its
    [break]: [false] as soon as a move lands on the back rank in columns 1-3
    or 5-6 or the king is flagged in check. *)
Fixpoint castlingAllowed (backRank : Z) (kingInCheck : bool) (pieceMoves : list Square)
  : bool :=
  match pieceMoves with
  | [] => true
  | move :: rest =>
      if ((row move =? backRank) && (0 <? column move) && (column move <? 4))
         || ((row move =? backRank) && (4 <? column move) && (column move <? 7))
         || kingInCheck
      then false
      else castlingAllowed backRank kingInCheck rest
  end.

(** [Rules.checkPossibleCastling()] *)
Definition checkPossibleCastling : G bool :=
  let* b := get board in
  let* t := get turn in
  let* pieceMoves := onStore (getAllPiecesMoves (opponent t) b) in
  let king := match t with White => wKing b | Black => bKing b end in
  let backRank := match t with White => 7 | Black => 0 end in
  let* k := look (λ s, getPiece s king) in
  let canCastle := castlingAllowed backRank (check k) pieceMoves in
  (if negb canCastle then
     let* filtered :=
       onStore (arrayFilter
                  (λ kingMove, negb ((row kingMove =? backRank)
                                     && ((column kingMove =? 2) || (column kingMove =? 6))))
                  (availableMoves k)) in
     onStore (modifyPiece king (set_availableMoves filtered))
   else update (set_canCastle true)) ;;;
  ret canCastle.

(** [Rules.filterAllMoves()]: every piece of the grid has its current
    [availableMoves] filtered, and the pieces left with at least one move are
    counted per colour. *)
Definition filterAllMoves : G Z :=
  let* b := get board in
  let* width := look (λ s, rowLength s b 0) in
  let* '(blacks, whites) :=
    foldM (λ acc i,
      foldM (λ '(blacks, whites) j,
        let* cell := look (λ s, gridGet s b i j) in
        match cell with
        | None => ret (blacks, whites)
        | Some p =>
            let* v := look (λ s, getPiece s p) in
            let* static := onStore (jsonCopy (availableMoves v)) in
            onStore (filterPieceMove b static p actual) ;;;
            let* '(_, v') := (let* cell' := look (λ s, gridGet s b i j) in
                              match cell' with
                              | Some p' => let* w := look (λ s, getPiece s p') in ret (p', w)
                              | None => raise
                              end) in
            let* moves := look (λ s, getArray s (availableMoves v')) in
            if bool_decide (moves ≠ []) then
              match color v' with
              | White => ret (blacks, whites + 1)
              | Black => ret (blacks + 1, whites)
              end
            else ret (blacks, whites)
        end) (upTo width) acc)
      (upTo (Z.of_nat (length (grid b)))) (0, 0) in
  update (set_availableMovesCounts blacks whites) ;;;
  let* t := get turn in
  match t with
  | White => ret blacks
  | Black => ret whites
  end.

(** [Rules.checkMateVerify()] *)
Definition checkMateVerify : G bool :=
  let* n := filterAllMoves in
  ret (n =? 0).

(** [Rules.staleMateVerification()]: both arms of the conditional on the turn
    read [this.board.bKing.check]. *)
Definition staleMateVerification : G Situation :=
  let* n := filterAllMoves in
  let* b := get board in
  let* t := get turn in
  let* notInCheck :=
    (if n =? 0 then
       match t with
       | White => let* k := look (λ s, getPiece s (bKing b)) in ret (negb (check k))
       | Black => let* k := look (λ s, getPiece s (bKing b)) in ret (negb (check k))
       end
     else ret false) in
  if notInCheck then
    update (set_gameSituation Stalemate) ;;;
    get gameSituation
  else get gameSituation.

(** [Rules.filterMovesForKingSafety(availableMoves, piece)] *)
Definition filterMovesForKingSafety (availableMoves0 : aref) (piece : pref) : G bool :=
  let* b := get board in
  let* staticAvailableMoves := onStore (jsonCopy availableMoves0) in
  let* boardClone := onStore (clone b) in
  let* bk := look (λ s, getPiece s (bKing b)) in
  let* anyCheck :=
    (if check bk then ret true
     else let* wk := look (λ s, getPiece s (wKing b)) in ret (check wk)) in
  onStore (filterPieceMove b staticAvailableMoves piece
                           (if anyCheck then virtual else actual)) ;;;
  let* '(_, sel) := selected in
  let* moves := look (λ s, getArray s (availableMoves sel)) in
  if bool_decide (moves ≠ []) then ret true
  else update (set_state ChoosingPiece) ;;; ret false.

(** ** Game: the event handlers *)

(** The steps of [Game.choosePiece] once the clicked piece has passed
    [validateTurn] and has a pseudo-legal move; [atEnd] is what follows the
    test of [filterMovesForKingSafety] and [inside] what closes its body. *)
Definition chooseWith (inside atEnd : G unit) (uiClick : Square) : G unit :=
  let* ok := validateTurn uiClick in
  if ok then
    let* b := get board in
    let* cell := look (λ s, getPieceAtPosition s b uiClick) in
    match cell with
    | None => raise
    | Some clickedPiece =>
        let* moves := onStore (possibleMoves b clickedPiece) in
        if bool_decide (moves ≠ []) then
          (* the console message evaluates possibleMoves once more *)
          onStore (possibleMoves b clickedPiece) ;;;
          update (set_selectedPiece (Some clickedPiece)) ;;;
          let* v := look (λ s, getPiece s clickedPiece) in
          let* legal := filterMovesForKingSafety (availableMoves v) clickedPiece in
          (if legal then
             let* target := get enPassantTarget in
             let* sel := get selectedPiece in
             onStore (checkEnPassant b target sel) ;;;
             update (set_enPassantTarget None) ;;;
             inside
           else ret tt) ;;;
          atEnd
        else ret tt
    end
  else ret tt.

(** [Game.choosePiece] of logic.js: the phase becomes "Moving a piece" after
    the test, whatever its outcome. *)
Definition choosePiece : Square → G unit :=
  chooseWith (ret tt) (update (set_state MovingAPiece)).

(** [Game.choosePiece] of the module copy (public/js/Game.js): the phase
    becomes "Moving a piece" inside the body of the test. *)
Definition choosePiece_module : Square → G unit :=
  chooseWith (update (set_state MovingAPiece)) (ret tt).

(** The test of [Game.movePiece] that makes the moved piece the en-passant
    target: its [previousCoordinate] stringifies as its start rank on its
    current column, and it stands two ranks further. *)
Definition doubleAdvanced (v : Piece) : bool :=
  match previousCoordinate v with
  | Some prev =>
      sameSquare prev (mkSquare (match color v with White => 6 | Black => 1 end)
                                (column (position v)))
      && (row (position v) =? match color v with White => 4 | Black => 3 end)
  | None => false
  end.

(** The part shared by [Game.movePiece] and [Game.handlePawnPromotion]: check
    detection for [piece], checkmate, stalemate.  [writeCheck] tells whether
    "Check" is assigned to [Rules.gameSituation] (in [movePiece]) or to the
    field of [Game] (in [handlePawnPromotion]); "Casual" always goes to the
    field of [Game]. *)
Definition adjudicate (writeCheck : bool) (piece : pref) : G unit :=
  let* b := get board in
  let* inCheck := onStore (checkVerification b actual piece) in
  (match inCheck with
   | Some _ =>
       (if writeCheck then update (set_gameSituation Check)
        else update (set_ownGameSituation (Some Check))) ;;;
       let* mate := checkMateVerify in
       if mate then
         update (set_gameSituation CHECKMATE) ;;;
         unbindClicks
       else ret tt
   | None => update (set_ownGameSituation (Some Casual))
   end) ;;;
  let* situation := staleMateVerification in
  if bool_decide (situation = Stalemate) then unbindClicks else ret tt.

(** [Game.movePiece(uiClick)] *)
Definition Game_movePiece (uiClick : Square) : G unit :=
  let* valid := validateUiMove uiClick in
  if valid then
    let* '(sel, v) := selected in
    let* b := get board in
    let* b' := onStore (movePiece b (position v) uiClick) in
    update (set_board b') ;;;
    adjudicate true sel ;;;
    let* '(_, v') := selected in
    (if doubleAdvanced v' then
       update (set_enPassantTarget (Some sel)) ;;;
       let* b2 := get board in
       onStore (checkEnPassant b2 (Some sel) (Some sel))
     else ret tt) ;;;
    let* promotion := checkPawnPromotion in
    if promotion then update (set_state PawnPromotion)
    else
      update (set_state ChoosingPiece) ;;;
      switchTurn
  else ret tt.

(** The image the player clicks in the promotion picker; [pieceNames] offers
    these four. *)
Inductive PromotionChoice := toKnight | toBishop | toRook | toQueen.

Definition promotedKind (choice : PromotionChoice) : Kind :=
  match choice with
  | toKnight => Knight
  | toQueen => Queen
  | toRook => Rook
  | toBishop => Bishop
  end.

(** [Game.handlePawnPromotion(event)] *)
Definition handlePawnPromotion (choice : PromotionChoice) : G unit :=
  let* t := get turn in
  let* '(sel, v) := selected in
  let* pieceConvertion := onStore (newPiece (promotedKind choice) t (position v)) in
  let* b := get board in
  let* where_ := get pawnInPromotion in
  match where_ with
  | None => raise
  | Some (r, c) =>
      onStore (gridSet b r c (Some pieceConvertion)) ;;;
      onStore (possibleMoves b pieceConvertion) ;;;
      onStore (checkVerification b actual pieceConvertion) ;;;
      adjudicate false sel ;;;
      switchTurn ;;;
      update (set_state ChoosingPiece)
  end.

(** [Game.handleKeyPress(event)] *)
Definition handleKeyPress (escape : bool) : G unit :=
  let* sel := get selectedPiece in
  let* st := get state in
  let* situation := get gameSituation in
  if escape && bool_decide (sel ≠ None) && bool_decide (st = MovingAPiece)
     && bool_decide (situation ≠ CHECKMATE)
  then
    update (set_state ChoosingPiece) ;;;
    update (set_selectedPiece None)
  else ret tt.

(** What reaches the game: a click on a square of the chessboard, a click on
    an image of the promotion picker, a key. *)
Inductive Event :=
| ClickSquare (uiClick : Square)
| ClickPromotion (choice : PromotionChoice)
| KeyDown (escape : bool).

(** [Game.handleSquareClick(event)], for either copy of [choosePiece].  A
    chessboard click during "Pawn promotion" finds no image and raises; the
    picker is not shown in the other two phases, and the embedding gives a
    click on it no meaning there. *)
Definition handleSquareClickWith (choose : Square → G unit) (event : Event) : G unit :=
  let* st := get state in
  match st, event with
  | ChoosingPiece, ClickSquare uiClick =>
      choose uiClick ;;;
      checkPossibleCastling ;;;
      ret tt
  | MovingAPiece, ClickSquare uiClick => Game_movePiece uiClick
  | PawnPromotion, ClickPromotion choice => handlePawnPromotion choice
  | _, _ => raise
  end.

(** The listeners of [bindEventListeners]: clicks reach [handleSquareClick]
    while the delegated handler is bound, keys always reach
    [handleKeyPress]. *)
Definition deliverWith (choose : Square → G unit) (event : Event) : G unit :=
  match event with
  | KeyDown escape => handleKeyPress escape
  | _ =>
      let* bound := get clickBound in
      if bound then handleSquareClickWith choose event else ret tt
  end.

Definition deliver : Event → G unit := deliverWith choosePiece.
Definition deliver_module : Event → G unit := deliverWith choosePiece_module.

(** [new Game()] *)
Definition newGame : option Game :=
  match newBoard emptyStore with
  | Some (b, s) =>
      Some (mkGame s b White None Casual ChoosingPiece None 10 10 None false None true)
  | None => None
  end.

(** A game fed a sequence of events, from [new Game()]. *)
Definition playWith (choose : Square → G unit) (events : list Event) : option Game :=
  match newGame with
  | Some g =>
      match forEach events (deliverWith choose) g with
      | Some (_, g') => Some g'
      | None => None
      end
  | None => None
  end.

Definition play : list Event → option Game := playWith choosePiece.
Definition play_module : list Event → option Game := playWith choosePiece_module.

(** Selecting the piece on [from] and then clicking [to]. *)
Definition ply (from to : Z * Z) : list Event :=
  [ClickSquare (mkSquare from.1 from.2); ClickSquare (mkSquare to.1 to.2)].

(** * Vocabulary of the statements *)

(** ** Well-formed boards *)

(** The grid has eight rows of eight cells. *)
Definition wellFormedGrid (s : Store) (b : Board) : bool :=
  bool_decide (length (grid b) = 8%nat)
  && forallb (λ rr, match getRow s rr with
                    | Some cells => bool_decide (length cells = 8%nat)
                    | None => false
                    end) (grid b).

Definition readOnBoard (rd : GridRead) : bool :=
  match rd with
  | ReadRow r => (0 <=? r) && (r <? 8)
  | ReadCell r c => onBoard r c
  end.







(** ** Observations on a game *)

(** The content of the [availableMoves] array of a piece. *)
Definition movesOf (s : Store) (p : pref) : option (list Square) :=
  let? v := getPiece s p in getArray s (availableMoves v).

(** The piece standing on a square of the live board. *)
Definition pieceAt (g : Game) (r c : Z) : option Piece :=
  match gridGet (store g) (board g) r c with
  | Some (Some p) => getPiece (store g) p
  | _ => None
  end.

Definition occupant (g : Game) (r c : Z) : option (Kind * Color) :=
  (λ v, (kind v, color v)) <$> pieceAt g r c.


(** The moves offered for the selected piece. *)
Definition selectedMoves (g : Game) : option (list Square) :=
  let? p := selectedPiece g in movesOf (store g) p.

(** The pseudo-legal moves of the piece on a square, before any filtering. *)
Definition pseudoLegal (g : Game) (r c : Z) : option (list Square) :=
  let? v := pieceAt g r c in generate (store g) (board g) v.

(** What a click on a square in the phase "Choosing piece" ends up offering:
    the moves of the piece it selected, none when it selected nothing. *)
Definition offered (g : Game) (r c : Z) : option (list Square) :=
  match handleSquareClickWith choosePiece (ClickSquare (mkSquare r c)) g with
  | Some (_, g') =>
      match selectedPiece g' with
      | Some _ => selectedMoves g'
      | None => Some []
      end
  | None => None
  end.

(** The squares of the two ranks White starts on. *)
Definition whiteCamp : list (Z * Z) :=
  r ← [6; 7]; c ← upTo 8; [(r, c)].

(** The moves of the sixteen white pieces at the start, in the order of
    [whiteCamp]: the single and the double advance of each pawn, two jumps
    for each knight, nothing for the other pieces. *)
Definition openingMoves : list (list Square) :=
  map (λ c, [mkSquare 5 c; mkSquare 4 c]) (upTo 8)
  ++ [[]; [mkSquare 5 0; mkSquare 5 2]; []; []; []; [];
      [mkSquare 5 5; mkSquare 5 7]; []].

(** 1. f3 e5 2. g4 Qh4: Black mates in two. *)
Definition foolsMate : list Event :=
  ply (6, 5) (5, 5) ++ ply (1, 4) (3, 4) ++ ply (6, 6) (4, 6) ++ ply (0, 3) (4, 7).

(** 1. e4 e5 2. Qh5, then a click on the pawn f7, which is pinned against
    its king. *)
Definition pinnedPawnClick : list Event :=
  ply (6, 4) (4, 4) ++ ply (1, 4) (3, 4) ++ ply (7, 3) (3, 7)
  ++ [ClickSquare (mkSquare 1 5)].

(** Checkmate and stalemate are the terminal situations. *)
Definition terminal (g : Game) : bool :=
  bool_decide (gameSituation g = CHECKMATE) || bool_decide (gameSituation g = Stalemate).

(** What decides whether a click is still served. *)
Definition verdict (g : Game) : Situation * bool := (gameSituation g, clickBound g).

(** A computation that assigns neither [Rules.gameSituation] nor the click
    binding. *)
Definition keepsVerdict {A} (m : G A) : Prop :=
  ∀ g a g', m g = Some (a, g') → verdict g' = verdict g.

(** The invariant of a game: in a terminal situation the click handler is
    unbound and no piece is being moved. *)
Definition settled (g : Game) : Prop :=
  terminal g = true → clickBound g = false ∧ state g ≠ MovingAPiece.

(** In a terminal situation the click handler is unbound. *)
Definition unbound (g : Game) : Prop := terminal g = true → clickBound g = false.

(** ** Frames on the store *)

(** [s'] is [s] after allocations and after writes to objects whose
    reference is at least [w]: every object below [w] is as it was. *)
Definition extends (w : positive) (s s' : Store) : Prop :=
  (next s ≤ next s')%positive
  ∧ ∀ r, (r < w)%positive →
      pieces s' !! r = pieces s !! r
      ∧ arrays s' !! r = arrays s !! r
      ∧ rows s' !! r = rows s !! r.

(** No piece lies at or beyond the next reference to be allocated. *)
Definition closedPieces (s : Store) : Prop :=
  ∀ p, (next s ≤ p)%positive → pieces s !! p = None.

(** The rook handles of a board. *)
Definition rookHandles (b : Board) : list pref :=
  [wRookLeft b; wRookRight b; bRookLeft b; bRookRight b].

(** The objects a board works on were all allocated at or after [w]: its
    rows, the pieces in its cells, its king handles, and the arrays of all
    of these.  (The rook handles of a clone hold arrays of the original and
    stand on no square.)  The allocator is sound for pieces. *)
Definition ownedAbove (w : positive) (s : Store) (b : Board) : Prop :=
  closedPieces s
  ∧ (∀ rr, rr ∈ grid b → (w ≤ rr)%positive)
  ∧ (∀ rr cells p, rr ∈ grid b → getRow s rr = Some cells → Some p ∈ cells →
       (w ≤ p)%positive ∧ p ∉ rookHandles b)
  ∧ (∀ p v, (w ≤ p)%positive → p ∉ rookHandles b → getPiece s p = Some v →
       (w ≤ availableMoves v)%positive)
  ∧ ((w ≤ wKing b)%positive ∧ wKing b ∉ rookHandles b)
  ∧ ((w ≤ bKing b)%positive ∧ bKing b ∉ rookHandles b).

(** A piece reference a board owns: allocated at or after [w] and not one
    of the rook handles. *)
Definition ownedRef (w : positive) (b : Board) (p : pref) : Prop :=
  (w ≤ p)%positive ∧ p ∉ rookHandles b.


(** A computation on an owned board: it writes nothing below [w], keeps the
    board owned, and its result satisfies [Q]. *)
Definition stable (w : positive) (b : Board) {A} (m : M A) (Q : A → Prop) : Prop :=
  ∀ s a s', (w ≤ next s)%positive → ownedAbove w s b → m s = Some (a, s') →
    extends w s s' ∧ ownedAbove w s' b ∧ Q a.

(** What [movePiece] leaves of the record of the board: the grid and the
    rook handles as they were, the king handles on pieces of the board. *)
Definition sameBoard (w : positive) (b b' : Board) : Prop :=
  grid b' = grid b ∧ rookHandles b' = rookHandles b
  ∧ ownedRef w b (wKing b') ∧ ownedRef w b (bKing b').









(** ** Boards [clone] is called on *)









(** ** The legality filter *)






(** ** Castling *)

(** The king of the side to move and its back rank. *)
Definition kingToMove (g : Game) : pref :=
  match turn g with White => wKing (board g) | Black => bKing (board g) end.

Definition backRankOf (c : Color) : Z :=
  match c with White => 7 | Black => 0 end.

(** The squares of a back rank [checkPossibleCastling] looks at: columns 1
    to 3 and 5 to 6. *)
Definition inCastlingRange (backRank : Z) (m : Square) : Prop :=
  row m = backRank ∧ (0 < column m < 4 ∨ 4 < column m < 7).

(** The moves the king of the side to move holds. *)
Definition kingMoves (g : Game) : option (list Square) :=
  movesOf (store g) (kingToMove g).

(** 1. Nf3 a6 2. e3 b6 3. Be2 c6: the white king and the rook on (7, 7)
    have not moved, (7, 5) and (7, 6) are empty. *)
Definition kingsideOpen : list Event :=
  ply (7, 6) (5, 5) ++ ply (1, 0) (2, 0) ++ ply (6, 4) (5, 4) ++ ply (1, 1) (2, 1)
  ++ ply (7, 5) (6, 4) ++ ply (1, 2) (2, 2).

(** 1. Nf3 Nc6 2. e3 Nb4 3. Be2 Nxa2: the same for White, with a black
    knight on (6, 0). *)
Definition knightOnA2 : list Event :=
  ply (7, 6) (5, 5) ++ ply (0, 1) (2, 2) ++ ply (6, 4) (5, 4) ++ ply (2, 2) (4, 1)
  ++ ply (7, 5) (6, 4) ++ ply (4, 1) (6, 0).

(** The pseudo-legal moves of the opponent that land on a square of [on]. *)
Definition landing (g : Game) (on : Square → bool) : option (list Square) :=
  match getAllPiecesMoves (opponent (turn g)) (board g) (store g) with
  | Some (moves, _) => Some (List.filter on moves)
  | None => None
  end.

(** What matters to White's kingside castling in a position: the move
    counters of the king on (7, 4) and of the right rook handle, the
    occupants of (7, 5), (7, 6) and (7, 7), the opposing moves landing on
    (7, 5) or (7, 6), those landing on (7, 1) to (7, 3), the check flag of the
    king, and the moves a click on the king ends up offering. *)
Definition castlingReport (g : Game) :=
  (amtMove <$> pieceAt g 7 4,
   amtMove <$> getPiece (store g) (wRookRight (board g)),
   [occupant g 7 5; occupant g 7 6; occupant g 7 7],
   landing g (λ m, (row m =? 7) && ((column m =? 5) || (column m =? 6))),
   landing g (λ m, (row m =? 7) && (0 <? column m) && (column m <? 4)),
   check <$> pieceAt g 7 4,
   offered g 7 4).

(** ** En passant *)


(** The square behind a pawn that has advanced two rows: the one it passed
    over. *)
Definition behind (capturedPiece : Piece) : Square :=
  match color capturedPiece with
  | White => mkSquare (row (position capturedPiece) + 1) (column (position capturedPiece))
  | Black => mkSquare (row (position capturedPiece) - 1) (column (position capturedPiece))
  end.



(** A computation of the game that leaves the observation [f] of it as it
    was. *)
Definition keeps {X A} (f : Game → X) (m : G A) : Prop :=
  ∀ g a g', m g = Some (a, g') → f g' = f g.






(** * Properties *)

(** ** Reasoning about computations *)

Lemma bind_Some {S A B} (m : ST S A) (k : A → ST S B) s b s' :
  bind m k s = Some (b, s') ↔ ∃ a s1, m s = Some (a, s1) ∧ k a s1 = Some (b, s').
Proof.
  unfold bind. destruct (m s) as [[a s1] |]; split.
  - eauto.
  - by intros (? & ? & [= <- <-] & ?).
  - done.
  - by intros (? & ? & ? & ?).
Qed.

Lemma ret_Some {S A} (a b : A) (s s' : S) : ret a s = Some (b, s') ↔ a = b ∧ s = s'.
Proof. unfold ret. naive_solver. Qed.

Lemma reading_Some {S A} (f : S → option A) s a s' :
  reading f s = Some (a, s') ↔ f s = Some a ∧ s' = s.
Proof. unfold reading. destruct (f s); naive_solver. Qed.

Lemma raise_Some {S A} (s : S) (x : A * S) : raise s = Some x ↔ False.
Proof. unfold raise. naive_solver. Qed.

(** Splits the hypotheses [m s = Some (a, s')] along the binds of [m]. *)
Ltac stInv :=
  repeat match goal with
    | H : bind _ _ _ = Some _ |- _ => apply bind_Some in H as (? & ? & ? & ?)
    | H : ret _ _ = Some _ |- _ => apply ret_Some in H as [? ?]
    | H : reading _ _ = Some _ |- _ => apply reading_Some in H as [? ?]
    | H : raise _ = Some _ |- _ => apply raise_Some in H; destruct H
    | H : (let '(_, _) := ?a in _) _ = Some _ |- _ => destruct a
    end;
  subst.

(** A computation that returns, by evaluation, and what holds of its result. *)
Lemma computed_Some {A} (o : option A) (P : A → Prop) :
  (match o with Some _ => true | None => false end) = true →
  (∀ a, o = Some a → P a) →
  ∃ a, o = Some a ∧ P a.
Proof. destruct o as [a |]; [eauto | discriminate]. Qed.

(** ** Squares and occupancy *)

Lemma onBoard_spec r c : onBoard r c = true ↔ 0 ≤ r < 8 ∧ 0 ≤ c < 8.
Proof. unfold onBoard. rewrite !andb_true_iff, !Z.leb_le, !Z.ltb_lt. lia. Qed.

Lemma onBoard_false r c : onBoard r c = false ↔ ¬ (0 ≤ r < 8 ∧ 0 ≤ c < 8).
Proof. rewrite <- onBoard_spec. destruct (onBoard r c); split; congruence. Qed.

Lemma nthZ_Some {A} (l : list A) i x :
  nthZ l i = Some x ↔ 0 ≤ i ∧ l !! Z.to_nat i = Some x.
Proof.
  unfold nthZ. destruct (0 <=? i) eqn:E.
  - apply Z.leb_le in E. tauto.
  - apply Z.leb_gt in E. split; [discriminate | lia].
Qed.

Lemma nthZ_in_range {A} (l : list A) i :
  0 ≤ i < Z.of_nat (length l) → ∃ x, nthZ l i = Some x.
Proof.
  intros H. destruct (lookup_lt_is_Some_2 l (Z.to_nat i)) as [x Hx]; [lia |].
  exists x. apply nthZ_Some. split; [lia | done].
Qed.

Lemma nthZ_elem_of {A} (l : list A) i x : nthZ l i = Some x → x ∈ l.
Proof. intros [_ H]%nthZ_Some. eapply list_elem_of_lookup_2; eauto. Qed.

Lemma wellFormedGrid_rows s b :
  wellFormedGrid s b = true →
  length (grid b) = 8%nat ∧
  ∀ rr, rr ∈ grid b → ∃ cells, getRow s rr = Some cells ∧ length cells = 8%nat.
Proof.
  unfold wellFormedGrid. rewrite andb_true_iff, bool_decide_eq_true, forallb_forall.
  intros [Hl Hr]. split; [done |]. intros rr Hin.
  specialize (Hr rr). rewrite <- list_elem_of_In in Hr. specialize (Hr Hin).
  destruct (getRow s rr) as [cells |]; [| done].
  apply bool_decide_eq_true in Hr. eauto.
Qed.

(** On a well-formed grid a square of the board has a row and a cell. *)
Lemma grid_cell s b r c :
  wellFormedGrid s b = true → 0 ≤ r < 8 → 0 ≤ c < 8 →
  ∃ rr cells cell, nthZ (grid b) r = Some rr ∧ getRow s rr = Some cells
                   ∧ length cells = 8%nat ∧ nthZ cells c = Some cell.
Proof.
  intros [Hl Hr]%wellFormedGrid_rows Hrow Hcol.
  destruct (nthZ_in_range (grid b) r) as [rr Hrr]; [lia |].
  destruct (Hr rr (nthZ_elem_of _ _ _ Hrr)) as (cells & Hcells & Hlen).
  destruct (nthZ_in_range cells c) as [cell Hcell]; [lia |].
  eauto 10.
Qed.

Lemma occupancy_spec (s : Store) (b : Board) (pos : Square) :
  wellFormedGrid s b = true →
  ∃ v reads,
    isSquareOccupied_reads s b pos = Some (v, reads)
    ∧ isSquareOccupied s b pos = Some v
    ∧ (onBoard (row pos) (column pos) = false → v = false)
    ∧ (onBoard (row pos) (column pos) = true →
       ∃ cell, gridGet s b (row pos) (column pos) = Some cell
               ∧ v = bool_decide (cell ≠ None))
    ∧ forallb readOnBoard reads = true.
Proof.
  intros Hwf. destruct pos as [r c]. unfold isSquareOccupied, isSquareOccupied_reads. simpl.
  destruct (wellFormedGrid_rows _ _ Hwf) as [Hl _]. rewrite Hl.
  change (Z.of_nat 8) with 8.
  destruct (decide (0 ≤ r < 8 ∧ 0 ≤ c)) as [Hin | Hout].
  - replace ((0 <=? r) && (r <? 8) && (0 <=? c)) with true
      by (symmetry; rewrite !andb_true_iff, !Z.leb_le, Z.ltb_lt; lia).
    destruct (decide (c < 8)) as [Hc | Hc].
    + destruct (grid_cell s b r c Hwf) as (rr & cells & cell & Hrr & Hcells & Hlen & Hcell);
        [lia | lia |].
      rewrite Hrr, Hcells, Hlen, Hcell. change (Z.of_nat 8) with 8.
      replace (c <? 8) with true by (symmetry; apply Z.ltb_lt; lia).
      eexists _, _. split; [reflexivity |]. split; [reflexivity |].
      split; [| split].
      * intros Hf. apply onBoard_false in Hf. lia.
      * intros _. exists cell. unfold gridGet. rewrite Hrr, Hcells, Hcell. done.
      * simpl. rewrite !andb_true_r. unfold onBoard.
        rewrite !andb_true_iff, !Z.leb_le, !Z.ltb_lt. lia.
    + destruct (nthZ_in_range (grid b) r) as [rr Hrr]; [lia |].
      destruct (wellFormedGrid_rows _ _ Hwf) as [_ Hr].
      destruct (Hr rr (nthZ_elem_of _ _ _ Hrr)) as (cells & Hcells & Hlen).
      rewrite Hrr, Hcells, Hlen. change (Z.of_nat 8) with 8.
      replace (c <? 8) with false by (symmetry; apply Z.ltb_ge; lia).
      eexists _, _. split; [reflexivity |]. split; [reflexivity |].
      split; [done |]. split.
      * intros Ht. apply onBoard_spec in Ht. lia.
      * simpl. rewrite andb_true_r, andb_true_iff, Z.leb_le, Z.ltb_lt. lia.
  - replace ((0 <=? r) && (r <? 8) && (0 <=? c)) with false.
    + eexists _, _. split; [reflexivity |]. split; [reflexivity |].
      split; [done |]. split; [| done].
      intros Ht. apply onBoard_spec in Ht. lia.
    + symmetry. rewrite !andb_false_iff, !Z.leb_gt, Z.ltb_ge. lia.
Qed.

(** C9: for every position, on or off the board, [Board.isSquareOccupied]
    returns a boolean; it returns false for every position whose row or
    column lies outside 0-7; and every element of the grid it reads lies
    inside the 8x8 grid.  On the board the boolean tells whether the cell
    holds a piece. *)
Theorem isSquareOccupied_in_bounds (s : Store) (b : Board) (pos : Square) :
  wellFormedGrid s b = true →
  ∃ v reads,
    isSquareOccupied_reads s b pos = Some (v, reads)
    ∧ isSquareOccupied s b pos = Some v
    ∧ (onBoard (row pos) (column pos) = false → v = false)
    ∧ (onBoard (row pos) (column pos) = true →
       ∃ cell, gridGet s b (row pos) (column pos) = Some cell
               ∧ v = bool_decide (cell ≠ None))
    ∧ forallb readOnBoard reads = true.
Proof. apply occupancy_spec. Qed.

Lemma isSquareOccupied_in_bounds_witness :
  match newBoard emptyStore with
  | Some (b, s) =>
      ∃ v reads,
        isSquareOccupied_reads s b (mkSquare 8 (-1)) = Some (v, reads)
        ∧ isSquareOccupied s b (mkSquare 8 (-1)) = Some v
        ∧ v = false
        ∧ forallb readOnBoard reads = true
  | None => False
  end.
Proof.
  destruct (newBoard emptyStore) as [[b s] |] eqn:E; [| vm_compute in E; discriminate].
  assert (Hwf : wellFormedGrid s b = true).
  { assert (Hc : (λ bs, wellFormedGrid bs.2 bs.1) <$> newBoard emptyStore = Some true)
      by (vm_compute; reflexivity).
    rewrite E in Hc. by injection Hc. }
  destruct (isSquareOccupied_in_bounds s b (mkSquare 8 (-1)) Hwf)
    as (v & reads & Hr & Hv & Hout & _ & Hreads).
  exists v, reads. split; [exact Hr |]. split; [exact Hv |].
  split; [apply Hout; reflexivity | exact Hreads].
Defined.

(** ** Generated squares stay on the board *)


Lemma stepTo_elem s b this sq l x :
  stepTo s b this sq = Some l → x ∈ l → x = sq.
Proof.
  unfold stepTo. intros H Hx.
  destruct (isSquareOccupied s b sq) as [[|] |]; [| | done].
  - destruct (colorAt s b sq); [| done]. injection H as <-.
    case_bool_decide; set_solver.
  - injection H as <-. set_solver.
Qed.


Lemma forDirections_elem directions f l x :
  forDirections directions f = Some l → x ∈ l →
  ∃ d l', d ∈ directions ∧ f d = Some l' ∧ x ∈ l'.
Proof.
  revert l. induction directions as [| d rest IH]; simpl; intros l H Hx.
  - injection H as <-. set_solver.
  - destruct (f d) as [here |] eqn:Hd; [| done].
    destruct (forDirections rest f) as [others |] eqn:Hr; [| done].
    injection H as <-. apply elem_of_app in Hx as [Hx | Hx].
    + exists d, here. set_solver.
    + destruct (IH others eq_refl Hx) as (d' & l' & ? & ? & ?).
      exists d', l'. set_solver.
Qed.




Lemma andThen_true a b : andThen a b = Some true → a = Some true ∧ b = Some true.
Proof. unfold andThen. destruct a as [[|] |]; naive_solver. Qed.




(** ** Move generation returns *)





















(** C2 fails on the code: after 1. f3 e5 2. g4 Qh4 White is to move, has no
    piece left with a legal move and its king is in check, and the situation
    is Stalemate: [staleMateVerification] reads the black king's flag on both
    arms of its test and overwrites the CHECKMATE just assigned. *)
Theorem foolsMate_situation :
  (λ g, (turn g, gameSituation g, availableMovesWhite g,
         check <$> getPiece (store g) (wKing (board g)),
         check <$> getPiece (store g) (bKing (board g)),
         clickBound g)) <$> play foolsMate
  = Some (White, Stalemate, 0, Some true, Some false, false).
Proof. vm_compute. reflexivity. Qed.

(** C4: in the initial arrangement each of the eight white pawns is offered
    its single and its double advance and each knight its two jumps, the
    other white pieces nothing; these are exactly the pseudo-legal moves
    (the legality filter removes none), 16 pawn moves and 4 knight moves,
    20 in all. *)
Theorem initial_legal_moves :
  (λ g, map (λ sq, offered g sq.1 sq.2) whiteCamp) <$> newGame = Some (map Some openingMoves)
  ∧ (λ g, map (λ sq, pseudoLegal g sq.1 sq.2) whiteCamp) <$> newGame
    = Some (map Some openingMoves)
  ∧ sum_list (length <$> take 8 openingMoves) = 16%nat
  ∧ sum_list (length <$> drop 8 openingMoves) = 4%nat
  ∧ sum_list (length <$> openingMoves) = 20%nat.
Proof. repeat split; vm_compute; reflexivity. Qed.

(** C8 fails on the code: after 1. e4 e5 2. Qh5 a click on the pinned pawn
    f7 leaves logic.js in the phase "Moving a piece" and the module copy in
    "Choosing piece". *)
Theorem copies_diverge_on_pinned_piece :
  (λ g, (turn g, state g, selectedMoves g)) <$> play pinnedPawnClick
  = Some (Black, MovingAPiece, Some [])
  ∧ (λ g, (turn g, state g, selectedMoves g)) <$> play_module pinnedPawnClick
    = Some (Black, ChoosingPiece, Some []).
Proof. split; vm_compute; reflexivity. Qed.

Lemma get_Some {A} (f : Game → A) g a g' : get f g = Some (a, g') ↔ a = f g ∧ g' = g.
Proof. unfold get. naive_solver. Qed.

Lemma update_Some (f : Game → Game) g a g' : update f g = Some (a, g') ↔ g' = f g.
Proof. unfold update. destruct a. naive_solver. Qed.

Lemma onStore_Some {A} (m : M A) g a g' :
  onStore m g = Some (a, g') ↔ ∃ s', m (store g) = Some (a, s') ∧ g' = set_store s' g.
Proof. unfold onStore. destruct (m (store g)) as [[? ?] |]; naive_solver. Qed.

Lemma set_store_verdict s g : verdict (set_store s g) = verdict g.
Proof. done. Qed.

Lemma keeps_ret {A} (a : A) : keepsVerdict (ret a).
Proof. intros g b g' [_ ->]%ret_Some. done. Qed.

Lemma keeps_raise {A} : keepsVerdict (@raise Game A).
Proof. intros g a g' []%raise_Some. Qed.

Lemma keeps_bind {A B} (m : G A) (k : A → G B) :
  keepsVerdict m → (∀ a, keepsVerdict (k a)) → keepsVerdict (bind m k).
Proof.
  intros Hm Hk g b g' (a & g1 & H1 & H2)%bind_Some.
  rewrite (Hk a _ _ _ H2). eauto.
Qed.

Lemma keeps_get {A} (f : Game → A) : keepsVerdict (get f).
Proof. intros g a g' [_ ->]%get_Some. done. Qed.

Lemma keeps_onStore {A} (m : M A) : keepsVerdict (onStore m).
Proof. intros g a g' (s' & _ & ->)%onStore_Some. done. Qed.

Lemma keeps_update (f : Game → Game) :
  (∀ g, verdict (f g) = verdict g) → keepsVerdict (update f).
Proof. intros Hf g a g' ->%update_Some. apply Hf. Qed.

Lemma keeps_foldM {A B} (f : B → A → G B) l acc :
  (∀ acc x, keepsVerdict (f acc x)) → keepsVerdict (foldM f l acc).
Proof.
  intros Hf. revert acc. induction l as [| x l IH]; intros acc; simpl.
  - apply keeps_ret.
  - apply keeps_bind; [apply Hf | intros; apply IH].
Qed.

Lemma keeps_forEach {A} (l : list A) (body : A → G unit) :
  (∀ x, keepsVerdict (body x)) → keepsVerdict (forEach l body).
Proof.
  intros Hb. induction l as [| x l IH]; simpl.
  - apply keeps_ret.
  - apply keeps_bind; [apply Hb | intros; apply IH].
Qed.

(** Proves [keepsVerdict m] for a computation built from the combinators
    above. *)
Ltac keeps :=
  repeat first
    [ apply keeps_ret
    | apply keeps_raise
    | apply keeps_get
    | apply keeps_onStore
    | apply keeps_update; intros []; reflexivity
    | apply keeps_bind; [| intros ?]
    | apply keeps_foldM; intros ? ?
    | apply keeps_forEach; intros ?
    | match goal with
      | |- keepsVerdict (match ?x with _ => _ end) => destruct x
      | |- keepsVerdict (let '(_, _) := ?x in _) => destruct x
      | |- keepsVerdict ((let '(_, _) := ?x in _) _) => destruct x
      end
    | assumption ].

Lemma keeps_validateTurn uiClick : keepsVerdict (validateTurn uiClick).
Proof. unfold validateTurn, look. keeps. Qed.

Lemma keeps_switchTurn : keepsVerdict switchTurn.
Proof. unfold switchTurn. keeps. Qed.

Lemma keeps_selected : keepsVerdict selected.
Proof. unfold selected, look. keeps. Qed.

Lemma keeps_validateUiMove uiClick : keepsVerdict (validateUiMove uiClick).
Proof. unfold validateUiMove, look. pose proof keeps_selected. keeps. Qed.

Lemma keeps_checkPawnPromotion : keepsVerdict checkPawnPromotion.
Proof. unfold checkPawnPromotion, checkRowForPawn, look. keeps. Qed.

Lemma keeps_checkPossibleCastling : keepsVerdict checkPossibleCastling.
Proof. unfold checkPossibleCastling, look. keeps. Qed.

Lemma keeps_filterAllMoves : keepsVerdict filterAllMoves.
Proof. unfold filterAllMoves, look. keeps. Qed.

Lemma keeps_checkMateVerify : keepsVerdict checkMateVerify.
Proof. unfold checkMateVerify. pose proof keeps_filterAllMoves. keeps. Qed.

Lemma keeps_filterMovesForKingSafety a p : keepsVerdict (filterMovesForKingSafety a p).
Proof. unfold filterMovesForKingSafety, look. pose proof keeps_selected. keeps. Qed.

Lemma keeps_chooseWith inside atEnd uiClick :
  keepsVerdict inside → keepsVerdict atEnd → keepsVerdict (chooseWith inside atEnd uiClick).
Proof.
  intros Hi He. unfold chooseWith, look.
  pose proof (keeps_validateTurn uiClick).
  pose proof keeps_filterMovesForKingSafety. keeps.
Qed.

Lemma keeps_choosePiece uiClick : keepsVerdict (choosePiece uiClick).
Proof. apply keeps_chooseWith; keeps. Qed.

Lemma keeps_choosePiece_module uiClick : keepsVerdict (choosePiece_module uiClick).
Proof. apply keeps_chooseWith; keeps. Qed.

(** Splits the hypotheses about a computation of the game. *)
Ltac gInv :=
  repeat match goal with
    | H : bind _ _ _ = Some _ |- _ => apply bind_Some in H as (? & ? & ? & ?)
    | H : ret _ _ = Some _ |- _ => apply ret_Some in H as [? ?]
    | H : raise _ = Some _ |- _ => apply raise_Some in H; destruct H
    | H : get _ _ = Some _ |- _ => apply get_Some in H as [? ?]
    | H : update _ _ = Some _ |- _ => apply update_Some in H
    | H : unbindClicks _ = Some _ |- _ => apply update_Some in H
    | H : look _ _ = Some _ |- _ => apply onStore_Some in H as (? & [? ?]%reading_Some & ?)
    | H : onStore _ _ = Some _ |- _ => apply onStore_Some in H as (? & ? & ?)
    | H : (let '(_, _) := ?a in _) _ = Some _ |- _ => destruct a
    | H : (if ?b then _ else _) _ = Some _ |- _ => destruct b eqn:?
    | H : (match ?o with Some _ => _ | None => _ end) _ = Some _ |- _ => destruct o eqn:?
    | H : (match ?c with White => _ | Black => _ end) _ = Some _ |- _ => destruct c eqn:?
    end;
  subst.

Lemma set_store_same g : set_store (store g) g = g.
Proof. by destruct g. Qed.

Lemma selected_readonly g a g' : selected g = Some (a, g') → g' = g.
Proof. unfold selected. intros H. gInv; apply set_store_same. Qed.

Lemma validateUiMove_readonly uiClick g a g' :
  validateUiMove uiClick g = Some (a, g') → g' = g.
Proof.
  unfold validateUiMove. intros H. gInv.
  match goal with H : selected _ = _ |- _ => apply selected_readonly in H as -> end.
  apply set_store_same.
Qed.

Lemma unbound_verdict g g' : verdict g' = verdict g → unbound g → unbound g'.
Proof. unfold unbound, terminal, verdict. intros [= -> ->]. done. Qed.

Lemma staleMateVerification_spec g situation g' :
  staleMateVerification g = Some (situation, g') →
  situation = gameSituation g'
  ∧ clickBound g' = clickBound g
  ∧ (gameSituation g' = gameSituation g ∨ gameSituation g' = Stalemate).
Proof.
  unfold staleMateVerification. intros H.
  apply bind_Some in H as (n & g1 & Hf & H).
  apply keeps_filterAllMoves in Hf as [= Hs Hb].
  gInv; simpl in *; rewrite ?Hs, ?Hb; auto.
Qed.

Lemma adjudicate_unbound writeCheck piece g g' :
  unbound g → adjudicate writeCheck piece g = Some (tt, g') → unbound g'.
Proof.
  intros Hg H. unfold adjudicate in H.
  apply bind_Some in H as (b & g0 & ->%get_Some%proj2 & H).
  apply bind_Some in H as (inCheck & g1 & (s1 & _ & ->)%onStore_Some & H).
  apply bind_Some in H as ([] & g2 & H2 & H).
  apply bind_Some in H as (situation & g3 & H3 & H).
  assert (Hg2 : unbound g2).
  { destruct inCheck as [c |].
    - apply bind_Some in H2 as ([] & ga & Ha & H2).
      apply bind_Some in H2 as (mate & gb & Hb%keeps_checkMateVerify & H2).
      destruct mate.
      + apply bind_Some in H2 as ([] & gc & ->%update_Some & H2).
        apply update_Some in H2 as ->. intros _. reflexivity.
      + apply ret_Some in H2 as [_ <-].
        destruct writeCheck; apply update_Some in Ha as ->.
        * unfold unbound, terminal. injection Hb as Hs _. rewrite Hs. simpl. done.
        * eapply unbound_verdict; [| exact Hg]. rewrite Hb. done.
    - apply update_Some in H2 as ->. exact Hg. }
  apply staleMateVerification_spec in H3 as (-> & Hb & Hs).
  case_bool_decide as Hstale.
  - apply update_Some in H as ->. intros _. reflexivity.
  - apply ret_Some in H as [_ <-]. destruct Hs as [Hs | Hs]; [| done].
    eapply unbound_verdict; [| exact Hg2]. unfold verdict. by rewrite Hs, Hb.
Qed.

Lemma Game_movePiece_settles uiClick g g' :
  unbound g → Game_movePiece uiClick g = Some (tt, g') →
  g' = g ∨ (unbound g' ∧ state g' ≠ MovingAPiece).
Proof.
  intros Hg H. unfold Game_movePiece in H.
  apply bind_Some in H as (valid & g0 & ->%validateUiMove_readonly & H).
  destruct valid; [| apply ret_Some in H as [_ <-]; by left].
  right.
  apply bind_Some in H as ([sel v] & g1 & ->%selected_readonly & H).
  apply bind_Some in H as (b & g1 & ->%get_Some%proj2 & H).
  apply bind_Some in H as (b' & g1 & (s1 & _ & ->)%onStore_Some & H).
  apply bind_Some in H as ([] & g2 & ->%update_Some & H).
  apply bind_Some in H as ([] & g3 & H3 & H).
  apply adjudicate_unbound in H3; [| exact Hg].
  apply bind_Some in H as ([? v'] & g4 & ->%selected_readonly & H).
  apply bind_Some in H as ([] & g5 & H5 & H).
  assert (Hv5 : verdict g5 = verdict g3).
  { destruct (doubleAdvanced v'); [| by apply ret_Some in H5 as [_ <-]].
    apply bind_Some in H5 as ([] & ga & ->%update_Some & H5).
    apply bind_Some in H5 as (b2 & gb & ->%get_Some%proj2 & H5).
    by apply onStore_Some in H5 as (s' & _ & ->). }
  apply bind_Some in H as (promotion & g6 & H6%keeps_checkPawnPromotion & H).
  assert (Hg6 : unbound g6)
    by (eapply unbound_verdict; [| exact H3]; by rewrite H6, Hv5).
  destruct promotion.
  - apply update_Some in H as ->. split; [exact Hg6 | done].
  - apply bind_Some in H as ([] & g7 & ->%update_Some & H).
    pose proof (keeps_switchTurn _ _ _ H) as Hv.
    split; [eapply unbound_verdict; [| exact Hg6]; by rewrite Hv |].
    unfold switchTurn in H. gInv; done.
Qed.

Lemma handlePawnPromotion_settles choice g g' :
  unbound g → handlePawnPromotion choice g = Some (tt, g') →
  unbound g' ∧ state g' ≠ MovingAPiece.
Proof.
  intros Hg H. unfold handlePawnPromotion in H.
  apply bind_Some in H as (t & g0 & ->%get_Some%proj2 & H).
  apply bind_Some in H as ([sel v] & g1 & ->%selected_readonly & H).
  apply bind_Some in H as (pc & g1 & (s1 & _ & ->)%onStore_Some & H).
  apply bind_Some in H as (b & g2 & ->%get_Some%proj2 & H).
  apply bind_Some in H as (where_ & g2 & ->%get_Some%proj2 & H).
  destruct where_ as [[r c] |]; [| by apply raise_Some in H].
  apply bind_Some in H as ([] & g3 & (s3 & _ & ->)%onStore_Some & H).
  apply bind_Some in H as (? & g4 & (s4 & _ & ->)%onStore_Some & H).
  apply bind_Some in H as (? & g5 & (s5 & _ & ->)%onStore_Some & H).
  apply bind_Some in H as ([] & g6 & H6 & H).
  apply adjudicate_unbound in H6; [| exact Hg].
  apply bind_Some in H as ([] & g7 & H7%keeps_switchTurn & H).
  apply update_Some in H as ->.
  split; [| done]. eapply unbound_verdict; [| exact H6]. by rewrite <- H7.
Qed.

Lemma handleKeyPress_settles escape g g' :
  settled g → handleKeyPress escape g = Some (tt, g') → settled g'.
Proof.
  intros Hg H. unfold handleKeyPress in H. gInv; [| exact Hg].
  intros Ht. destruct (Hg Ht) as [Hb _]. split; [exact Hb | done].
Qed.

Lemma deliverWith_settles choose event g g' :
  (∀ uiClick, keepsVerdict (choose uiClick)) →
  settled g → deliverWith choose event g = Some (tt, g') → settled g'.
Proof.
  intros Hchoose Hg H.
  assert (Hclick : (let* bound := get clickBound in
                    if bound then handleSquareClickWith choose event else ret tt) g
                   = Some (tt, g') → settled g').
  { clear H. intros H.
    apply bind_Some in H as (bound & g0 & [-> ->]%get_Some & H).
    destruct (clickBound g) eqn:Hbound; [| apply ret_Some in H as [_ <-]; exact Hg].
    assert (Hu : unbound g) by (intros Ht; destruct (Hg Ht); congruence).
    unfold handleSquareClickWith in H.
    apply bind_Some in H as (st & g0 & [-> ->]%get_Some & H).
    destruct (state g) eqn:Hst, event as [uiClick | choice | escape];
      try (by apply raise_Some in H).
    - apply bind_Some in H as ([] & g1 & H1%Hchoose & H).
      apply bind_Some in H as (? & g2 & H2%keeps_checkPossibleCastling & H).
      apply ret_Some in H as [_ <-].
      assert (Hv : verdict g2 = verdict g) by congruence.
      intros Ht. exfalso. injection Hv as Hs Hb.
      unfold terminal in Ht. rewrite Hs in Ht. destruct (Hg Ht). congruence.
    - apply Game_movePiece_settles in H; [| exact Hu].
      destruct H as [-> | [Hu' Hs']]; [exact Hg |].
      intros Ht. split; [by apply Hu' | exact Hs'].
    - apply handlePawnPromotion_settles in H; [| exact Hu]. destruct H as [Hu' Hs'].
      intros Ht. split; [by apply Hu' | exact Hs']. }
  destruct event as [uiClick | choice | escape]; [by apply Hclick | by apply Hclick |].
  eapply handleKeyPress_settles; eauto.
Qed.

Lemma forEach_settles choose events g g' :
  (∀ uiClick, keepsVerdict (choose uiClick)) →
  settled g → forEach events (deliverWith choose) g = Some (tt, g') → settled g'.
Proof.
  intros Hchoose. revert g. induction events as [| event events IH]; simpl; intros g Hg H.
  - apply ret_Some in H as [_ <-]. exact Hg.
  - apply bind_Some in H as ([] & g1 & H1 & H). eapply IH; [| exact H].
    eapply deliverWith_settles; eauto.
Qed.

Lemma playWith_settled choose events g :
  (∀ uiClick, keepsVerdict (choose uiClick)) →
  playWith choose events = Some g → settled g.
Proof.
  intros Hchoose. unfold playWith, newGame.
  destruct (newBoard emptyStore) as [[b s] |]; [| done].
  destruct (forEach _ _ _) as [[[] g'] |] eqn:H; [| done]. intros [= <-].
  eapply forEach_settles; [exact Hchoose | | exact H]. intros Ht. done.
Qed.

Lemma settled_rejects choose event g :
  settled g → terminal g = true → deliverWith choose event g = Some (tt, g).
Proof.
  intros Hg Ht. destruct (Hg Ht) as [Hb Hs].
  destruct event as [uiClick | choice | escape]; simpl.
  - unfold bind, get. by rewrite Hb.
  - unfold bind, get. by rewrite Hb.
  - unfold handleKeyPress, bind, get.
    rewrite (bool_decide_eq_false_2 (state g = MovingAPiece)) by done.
    by rewrite andb_false_r.
Qed.

(** C7: once a game has reached CHECKMATE or Stalemate, every further event
    (a click on a square, a click in the promotion picker, a key) leaves the
    whole game as it is: board, store, turn, phase and situation.  Nothing
    resets it. *)
Theorem terminal_situation_rejects_requests (events : list Event) (g : Game) :
  play events = Some g →
  terminal g = true →
  ∀ event, deliver event g = Some (tt, g).
Proof.
  unfold play, deliver. intros Hplay Ht event.
  apply settled_rejects; [| exact Ht].
  revert Hplay. apply playWith_settled. exact keeps_choosePiece.
Qed.

Lemma terminal_situation_rejects_requests_witness :
  ∃ g, play foolsMate = Some g
       ∧ terminal g = true
       ∧ ∀ event, deliver event g = Some (tt, g).
Proof.
  apply (computed_Some (play foolsMate)); [vm_compute; reflexivity |].
  intros g Hplay.
  assert (Ht : terminal g = true).
  { assert (Hc : terminal <$> play foolsMate = Some true) by (vm_compute; reflexivity).
    rewrite Hplay in Hc. by injection Hc. }
  split; [exact Ht |].
  exact (terminal_situation_rejects_requests foolsMate g Hplay Ht).
Defined.

(** ** Frames on the store *)

Lemma extends_refl w s : extends w s s.
Proof. split; [lia | done]. Qed.

Lemma extends_trans w s1 s2 s3 : extends w s1 s2 → extends w s2 s3 → extends w s1 s3.
Proof.
  intros [Hn1 H1] [Hn2 H2]. split; [lia |]. intros r Hr.
  destruct (H1 r Hr) as (E1 & E2 & E3), (H2 r Hr) as (F1 & F2 & F3).
  rewrite F1, F2, F3. done.
Qed.


Lemma putPiece_extends w p v s s' :
  (w ≤ p)%positive → putPiece p v s = Some (tt, s') → extends w s s'.
Proof.
  intros Hp [= <-]. split; [simpl; lia |]. intros r Hr. simpl.
  rewrite lookup_insert_ne by lia. done.
Qed.


Lemma putRow_extends w rr c s s' :
  (w ≤ rr)%positive → putRow rr c s = Some (tt, s') → extends w s s'.
Proof.
  intros Hp [= <-]. split; [simpl; lia |]. intros r Hr. simpl.
  rewrite lookup_insert_ne by lia. done.
Qed.



Lemma allocPiece_extends w v s p s' :
  (w ≤ next s)%positive → allocPiece v s = Some (p, s') →
  extends w s s' ∧ p = next s ∧ next s' = Pos.succ (next s).
Proof.
  intros Hw [= <- <-]. split; [| done]. split; [simpl; lia |]. intros r Hr. simpl.
  rewrite lookup_insert_ne by lia. done.
Qed.

Lemma modifyPiece_Some p f s a s' :
  modifyPiece p f s = Some (a, s') ↔
  ∃ v, getPiece s p = Some v
       ∧ s' = mkStore (<[p := f v]> (pieces s)) (arrays s) (rows s) (next s).
Proof.
  unfold modifyPiece. destruct a. split.
  - intros H. stInv. unfold putPiece in *. simplify_eq. eauto.
  - intros (v & Hv & ->). unfold bind, reading, putPiece. by rewrite Hv.
Qed.



(** ** Computations on an owned board *)

Lemma stable_ret w b {A} (a : A) (Q : A → Prop) : Q a → stable w b (ret a) Q.
Proof. intros HQ s a' s' Hw Ho [<- <-]%ret_Some. eauto using extends_refl. Qed.


Lemma stable_bind w b {A B} (m : M A) (k : A → M B) (Q : A → Prop) (R : B → Prop) :
  stable w b m Q → (∀ a, Q a → stable w b (k a) R) → stable w b (bind m k) R.
Proof.
  intros Hm Hk s c s' Hw Ho (a & s1 & H1 & H2)%bind_Some.
  destruct (Hm _ _ _ Hw Ho H1) as (He1 & Ho1 & HQ).
  destruct (Hk a HQ s1 c s') as (He2 & Ho2 & HR); [destruct He1; lia | done | done |].
  eauto using extends_trans.
Qed.

Lemma stable_weaken w b {A} (m : M A) (Q R : A → Prop) :
  stable w b m Q → (∀ a, Q a → R a) → stable w b m R.
Proof. intros Hm HQR s a s' Hw Ho H. destruct (Hm _ _ _ Hw Ho H) as (? & ? & ?). eauto. Qed.


Lemma stable_forEach w b {A} (l : list A) (body : A → M unit) :
  (∀ x, x ∈ l → stable w b (body x) (λ _, True)) → stable w b (forEach l body) (λ _, True).
Proof.
  induction l as [| x l IH]; simpl; intros Hb.
  - by apply stable_ret.
  - eapply stable_bind; [apply Hb; set_solver |]. intros _ _. apply IH.
    intros y Hy. apply Hb. set_solver.
Qed.














Lemma set_position_moves sq v : availableMoves (set_position sq v) = availableMoves v.
Proof. done. Qed.


Lemma sameBoard_refl w s b : ownedAbove w s b → sameBoard w b b.
Proof. intros (_ & _ & _ & _ & Hwk & Hbk). done. Qed.







(** ** The clone of a board *)



Lemma upTo_length n : 0 ≤ n → length (upTo n) = Z.to_nat n.
Proof. intros. unfold upTo. apply length_seqZ. Qed.


























(** *** [clone] returns *)













(** *** The pieces [clone] constructs on the squares *)










(** ** Cloning frames the original board *)








(** ** The legality filter tries every candidate on a clone of its own *)


















(** ** Castling: generation and veto *)

Lemma castleLeft_true s b this r c :
  castleLeft s b this r c = Some true →
  hasMoved this = false
  ∧ rookNotMoved s this (wRookLeft b) (bRookLeft b) = Some true
  ∧ ∀ k, k ∈ [0; 1; 2] → isSquareOccupied s b (mkSquare r (c - k)) = Some false.
Proof.
  unfold castleLeft.
  intros [H1 [H2 [H3 [H4 H5]%andThen_true]%andThen_true]%andThen_true]%andThen_true.
  injection H4 as H4. apply negb_true_iff in H4.
  split; [done |]. split; [done |].
  unfold notOccupied in H1, H2, H3.
  intros k Hk. rewrite !elem_of_cons, elem_of_nil in Hk.
  destruct Hk as [-> | [-> | [-> | []]]].
  - rewrite Z.sub_0_r. destruct (isSquareOccupied s b (mkSquare r c)) as [[|] |]; done.
  - destruct (isSquareOccupied s b (mkSquare r (c - 1))) as [[|] |]; done.
  - destruct (isSquareOccupied s b (mkSquare r (c - 2))) as [[|] |]; done.
Qed.

Lemma castleRight_true s b this r c :
  castleRight s b this r c = Some true →
  hasMoved this = false
  ∧ rookNotMoved s this (wRookRight b) (bRookRight b) = Some true
  ∧ ∀ k, k ∈ [0; 1] → isSquareOccupied s b (mkSquare r (c + k)) = Some false.
Proof.
  unfold castleRight.
  intros [H1 [H2 [H4 H5]%andThen_true]%andThen_true]%andThen_true.
  injection H4 as H4. apply negb_true_iff in H4.
  split; [done |]. split; [done |].
  unfold notOccupied in H1, H2.
  intros k Hk. rewrite !elem_of_cons, elem_of_nil in Hk.
  destruct Hk as [-> | [-> | []]].
  - rewrite Z.add_0_r. destruct (isSquareOccupied s b (mkSquare r c)) as [[|] |]; done.
  - destruct (isSquareOccupied s b (mkSquare r (c + 1))) as [[|] |]; done.
Qed.

(** A square two columns from the king comes from a castling test. *)
Lemma King_two_columns s b this moves (side : Z) :
  side = -1 ∨ side = 1 →
  King_possibleMoves s b this = Some moves →
  mkSquare (row (position this)) (column (position this) + 2 * side) ∈ moves →
  (if side =? -1
   then castleLeft s b this (row (position this)) (column (position this) - 1)
   else castleRight s b this (row (position this)) (column (position this) + 1))
  = Some true.
Proof.
  intros Hside H Hx. unfold King_possibleMoves in H.
  destruct (forDirections_elem _ _ _ _ H Hx) as (d & l' & Hd & Hf & Hx').
  clear H Hx. unfold kingDirections in Hd.
  rewrite !elem_of_cons, elem_of_nil in Hd.
  set (r := row (position this)) in *. set (c := column (position this)) in *.
  assert (Hstd : ∀ d1 d2 standard,
             stepTo s b this (mkSquare (r + d1) (c + d2)) = Some standard →
             -1 ≤ d2 ≤ 1 → mkSquare r (c + 2 * side) ∉ standard).
  { intros d1 d2 standard Hs Hd2 Hin.
    apply (stepTo_elem _ _ _ _ _ _ Hs) in Hin. injection Hin as _ Hc. lia. }
  destruct Hd as [-> | [-> | [-> | [-> | [-> | [-> | [-> | [-> | []]]]]]]]];
    cbn [fst snd Z.eqb andb] in Hf;
    match type of Hf with
    | (if ?o then _ else _) = _ => destruct o; [| injection Hf as <-; set_solver]
    end.
  1-6: destruct (stepTo s b this _) as [standard |] eqn:Hs; [| done];
       injection Hf as <-; cbn [app] in Hx';
       exfalso; revert Hx'; eapply Hstd; [exact Hs | lia].
  - replace (r + 0) with r in Hf by lia. replace (c + -1) with (c - 1) in Hf by lia.
    destruct (castleLeft s b this r (c - 1)) as [ok |] eqn:Hok; [| done]. cbn in Hf.
    destruct (stepTo s b this _) as [standard |] eqn:Hs; [| done].
    injection Hf as <-. apply elem_of_app in Hx' as [Hx' | Hx'].
    + destruct ok; [| set_solver]. apply list_elem_of_singleton in Hx'.
      injection Hx' as Hc. destruct Hside as [-> | ->]; [done | lia].
    + exfalso. revert Hx'. apply (Hstd 0 (-1)); [| lia].
      by replace (r + 0) with r by lia.
  - replace (r + 0) with r in Hf by lia.
    destruct (castleRight s b this r (c + 1)) as [ok |] eqn:Hok; [| done]. cbn in Hf.
    destruct (stepTo s b this _) as [standard |] eqn:Hs; [| done].
    injection Hf as <-. apply elem_of_app in Hx' as [Hx' | Hx'].
    + destruct ok; [| set_solver]. apply list_elem_of_singleton in Hx'.
      injection Hx' as Hc. destruct Hside as [-> | ->]; [lia | done].
    + exfalso. revert Hx'. apply (Hstd 0 1); [| lia].
      by replace (r + 0) with r by lia.
Qed.

Lemma castlingAllowed_false backRank kingInCheck pieceMoves m :
  m ∈ pieceMoves → inCastlingRange backRank m →
  castlingAllowed backRank kingInCheck pieceMoves = false.
Proof.
  intros Hin [Hrow Hcol]. induction pieceMoves as [| x rest IH]; [set_solver |].
  cbn [castlingAllowed].
  destruct (_ || kingInCheck) eqn:E; [done |].
  apply elem_of_cons in Hin as [<- | Hin]; [| by apply IH].
  exfalso. apply orb_false_iff in E as [[E1 E2]%orb_false_iff _].
  assert (Hr : (row m =? backRank) = true) by (by apply Z.eqb_eq).
  rewrite Hr in E1, E2. cbn [andb] in E1, E2.
  apply andb_false_iff in E1, E2. rewrite !Z.ltb_ge in E1, E2. lia.
Qed.

Lemma castling_squares_filtered backRank (l : list Square) (column0 : Z) :
  column0 = 2 ∨ column0 = 6 →
  mkSquare backRank column0
  ∉ List.filter (λ kingMove, negb ((row kingMove =? backRank)
                                   && ((column kingMove =? 2) || (column kingMove =? 6)))) l.
Proof.
  intros Hc Hin. apply list_elem_of_In, filter_In in Hin as [_ Hin].
  cbn [row column] in Hin. rewrite Z.eqb_refl in Hin.
  destruct Hc as [-> | ->]; done.
Qed.

(** [checkPossibleCastling] withdraws both castling squares from the king
    of the side to move as soon as an opposing move lands in the range. *)
Lemma checkPossibleCastling_veto g pieceMoves s1 m allowed g' :
  getAllPiecesMoves (opponent (turn g)) (board g) (store g) = Some (pieceMoves, s1) →
  m ∈ pieceMoves → inCastlingRange (backRankOf (turn g)) m →
  checkPossibleCastling g = Some (allowed, g') →
  allowed = false
  ∧ ∃ moves, kingMoves g' = Some moves
      ∧ (mkSquare (backRankOf (turn g)) 2 ∉ moves)
      ∧ (mkSquare (backRankOf (turn g)) 6 ∉ moves).
Proof.
  intros Hall Hm Hrange H. unfold checkPossibleCastling in H.
  apply bind_Some in H as (b & g0 & [-> ->]%get_Some & H).
  apply bind_Some in H as (t & g0 & [-> ->]%get_Some & H).
  apply bind_Some in H as (pm & g1 & (s' & Hpm & ->)%onStore_Some & H).
  rewrite Hall in Hpm. injection Hpm as <- <-.
  apply bind_Some in H as (k & g2 & (s2 & [Hk ->]%reading_Some & ->)%onStore_Some & H).
  cbn [store set_store] in Hk.
  fold (kingToMove g) in Hk, H. fold (backRankOf (turn g)) in H.
  rewrite (castlingAllowed_false _ _ _ m Hm Hrange) in H. cbn [negb] in H.
  apply bind_Some in H as ([] & g3 & H & [<- <-]%ret_Some).
  apply bind_Some in H as (filtered & g4 & (s4 & Hfilter & ->)%onStore_Some & H).
  apply onStore_Some in H as (s5 & Hmod & ->).
  cbn [store set_store] in Hfilter, Hmod.
  unfold arrayFilter in Hfilter.
  apply bind_Some in Hfilter as (l & s0 & [Hl ->]%reading_Some & [= <- <-]).
  apply modifyPiece_Some in Hmod as (k' & Hk' & ->).
  split; [done |]. eexists. split.
  - unfold kingMoves, movesOf, kingToMove. cbn [store set_store turn board].
    fold (kingToMove g). unfold getPiece, getArray. cbn [pieces arrays].
    rewrite lookup_insert_eq. cbn [availableMoves set_availableMoves].
    by rewrite lookup_insert_eq.
  - split; apply castling_squares_filtered; auto.
Qed.

(** C5.  Move generation gives a king the square two columns to its left
    only when the king has not moved, the left rook handle of its colour has
    not moved and the three squares to its left are empty, and the square two
    columns to its right only when the king has not moved, the right rook
    handle has not moved and the two squares to its right are empty.
    [checkPossibleCastling] withdraws both squares, on columns 2 and 6 of the
    back rank, as soon as one opposing pseudo-legal move lands on the back
    rank on columns 1 to 3 or 5 to 6.  After 1. Nf3 a6 2. e3 b6 3. Be2 c6 no
    opposing move lands there, and a click on the white king offers (7, 6).
    After 1. Nf3 Nc6 2. e3 Nb4 3. Be2 Nxa2 the white king and the rook on
    (7, 7) have not moved either, (7, 5) and (7, 6) are empty and no opposing
    move lands on them, the king is not in check; the knight on (6, 0) has a
    move to (7, 2), and a click on the king offers (7, 5) only: the kingside
    destination is withdrawn for a square the king would not pass. *)
Theorem castling_generated_and_vetoed :
  (∀ s b this moves,
     King_possibleMoves s b this = Some moves →
     let r := row (position this) in
     let c := column (position this) in
     (mkSquare r (c - 2) ∈ moves →
        hasMoved this = false
        ∧ rookNotMoved s this (wRookLeft b) (bRookLeft b) = Some true
        ∧ ∀ k, k ∈ [1; 2; 3] → isSquareOccupied s b (mkSquare r (c - k)) = Some false)
     ∧ (mkSquare r (c + 2) ∈ moves →
        hasMoved this = false
        ∧ rookNotMoved s this (wRookRight b) (bRookRight b) = Some true
        ∧ ∀ k, k ∈ [1; 2] → isSquareOccupied s b (mkSquare r (c + k)) = Some false))
  ∧ (∀ g pieceMoves s1 m allowed g',
       getAllPiecesMoves (opponent (turn g)) (board g) (store g) = Some (pieceMoves, s1) →
       m ∈ pieceMoves → inCastlingRange (backRankOf (turn g)) m →
       checkPossibleCastling g = Some (allowed, g') →
       allowed = false
       ∧ ∃ moves, kingMoves g' = Some moves
           ∧ (mkSquare (backRankOf (turn g)) 2 ∉ moves)
           ∧ (mkSquare (backRankOf (turn g)) 6 ∉ moves))
  ∧ castlingReport <$> play kingsideOpen
    = Some (Some 0, Some 0, [None; None; Some (Rook, White)],
            Some [], Some [], Some false, Some [mkSquare 7 6; mkSquare 7 5])
  ∧ castlingReport <$> play knightOnA2
    = Some (Some 0, Some 0, [None; None; Some (Rook, White)],
            Some [], Some [mkSquare 7 2], Some false, Some [mkSquare 7 5]).
Proof.
  split; [| split; [exact checkPossibleCastling_veto |
                    split; vm_compute; reflexivity]].
  intros s b this moves H r c. split; intros Hin.
  - pose proof (King_two_columns s b this moves (-1) (or_introl eq_refl) H) as Hc.
    cbn [Z.eqb Z.mul] in Hc. fold r c in Hc.
    replace (c + -2) with (c - 2) in Hc by lia.
    destruct (castleLeft_true _ _ _ _ _ (Hc Hin)) as (Hk & Hr & Hsq).
    split; [done |]. split; [done |]. intros k Hk'.
    rewrite !elem_of_cons, elem_of_nil in Hk'.
    replace (c - k) with (c - 1 - (k - 1)) by lia.
    apply Hsq. rewrite !elem_of_cons, elem_of_nil. lia.
  - pose proof (King_two_columns s b this moves 1 (or_intror eq_refl) H) as Hc.
    cbn [Z.eqb Z.mul] in Hc. fold r c in Hc.
    destruct (castleRight_true _ _ _ _ _ (Hc Hin)) as (Hk & Hr & Hsq).
    split; [done |]. split; [done |]. intros k Hk'.
    rewrite !elem_of_cons, elem_of_nil in Hk'.
    replace (c + k) with (c + 1 + (k - 1)) by lia.
    apply Hsq. rewrite !elem_of_cons, elem_of_nil. lia.
Qed.

(** ** En passant: the extra move, the capture, the end of the option *)












(** *** Observations a computation keeps *)

Section Keeps.
Context {X : Type} (f : Game → X).
Hypothesis f_store : ∀ s g, f (set_store s g) = f g.








End Keeps.













